(** * CustomVideoPlayer: a shallow embedding of the widget controller

    The widget is one TypeScript class, [CustomVideoPlayer] (the compiled
    [dist/index.js] is the same program).  Its objects become records, its
    private methods become functions from player state to player state, and
    the constructor becomes a function on an explicit document that either
    throws or returns the new player together with the mutated document.

    Numbers.  A JavaScript number is an IEEE 754 double.  [Js.Number] has
    the finite doubles, each as the rational it denotes, the two infinities
    and [NaN].  The operations that round, [/] and [+], go through
    [Js.round64]: round to nearest, ties to even, on 53 bits, with
    subnormals and overflow.  The two zeros are one value here; the widget
    never divides by a zero, and a negative zero prints as ["0"].  The
    properties of the DOM objects hold finite numbers and are rationals. *)

From Stdlib Require Import ZArith QArith Qround Qabs Qpower Lqa Lia Bool List.
From Stdlib Require Import Ascii String DecimalString DecimalFacts DecimalPos.
From Stdlib Require Import DecimalZ.
Import ListNotations.

Open Scope string_scope.
Open Scope Z_scope.

(** ** JavaScript built-ins used by the widget *)

Module Js.

(** *** Numbers *)

Inductive Number :=
| Fin (x : Q)
| Infinity (negative : bool)
| NaN.

Definition pow2 (e : Z) : Q := (2 ^ e)%Q.

(** The binary exponent of a positive rational: [2^e <= x < 2^(e+1)]. *)
Definition ilog2 (x : Q) : Z :=
  let c := Z.log2 (Qnum x) - Z.log2 (Zpos (Qden x)) in
  if Qle_bool (pow2 c) x then c else c - 1.

(** The nearest integer, the even one at a tie. *)
Definition roundHalfEven (y : Q) : Z :=
  let f := Qfloor y in
  match (y - inject_Z f ?= 1 # 2)%Q with
  | Lt => f
  | Gt => f + 1
  | Eq => if Z.even f then f else f + 1
  end.

(** The exponent of the unit in the last place of a double of magnitude
    [a]: 53 significant bits, and never below the subnormal step. *)
Definition ulpExponent (a : Q) : Z := Z.max (ilog2 a - 52) (-1074).

(** The double nearest to a rational. *)
Definition round64 (x : Q) : Number :=
  if Qeq_bool x 0 then Fin 0
  else
    let a := Qabs x in
    let e := ulpExponent a in
    let r := (inject_Z (roundHalfEven (a / pow2 e)) * pow2 e)%Q in
    if Qle_bool (pow2 1024) r then Infinity (Qnum x <? 0)
    else Fin (if Qnum x <? 0 then - r else r)%Q.

(** The number that a numeric literal denotes. *)
Definition number (literal : Q) : Number := round64 literal.

(** [a / b] for a literal divisor that is a positive integer; the widget
    divides by 60. *)
Definition div (a : Number) (b : positive) : Number :=
  match a with
  | Fin x => round64 (x / inject_Z (Zpos b))
  | Infinity negative => Infinity negative
  | NaN => NaN
  end.

(** [a + b] for finite operands. *)
Definition add (a b : Q) : Number := round64 (a + b).

(** Rounding towards zero; the quotient that [%] is built from. *)
Definition trunc (x : Q) : Z :=
  Z.quot (Qnum x) (Zpos (Qden x)).

(** [a % b] for a literal divisor that is a positive integer: the remainder
    takes the sign of the dividend and is exact; that of an infinity is
    [NaN]. *)
Definition rem (a : Number) (b : positive) : Number :=
  match a with
  | Fin x => Fin (x - inject_Z (Zpos b) * inject_Z (trunc (x / inject_Z (Zpos b))))
  | _ => NaN
  end.

(** The values of [Math.floor]: the integers, the infinities and [NaN]. *)
Inductive Integral :=
| Int (n : Z)
| IntInfinity (negative : bool)
| IntNaN.

(** [Math.floor]. *)
Definition floor (a : Number) : Integral :=
  match a with
  | Fin x => Int (Qfloor x)
  | Infinity negative => IntInfinity negative
  | NaN => IntNaN
  end.

(** [a < b] for an integer literal [b]; every comparison with [NaN] is
    false. *)
Definition lt (a : Integral) (b : Z) : bool :=
  match a with
  | Int n => n <? b
  | IntInfinity negative => negative
  | IntNaN => false
  end.

(** *** Number to string *)

(** The decimal digits of an integer, most significant first, with a minus
    sign for a negative one. *)
Definition decimal (n : Z) : string :=
  NilZero.string_of_int (Z.to_int n).

(** The integer [w] denotes the double of value [v]: converting [w] to a
    number gives [v]. *)
Definition roundsTo (w v : Z) : bool :=
  match round64 (inject_Z w) with
  | Fin y => Qeq_bool y (inject_Z v)
  | _ => false
  end.

(** The multiples of [10^j] next to [v] that denote [v]: the nearer one,
    and at equal distance the one with the even last digit. *)
Definition candidate (j v : Z) : option Z :=
  let p := 10 ^ j in
  let lo := v / p * p in
  let hi := lo + p in
  if p <=? v then
    match roundsTo lo v, roundsTo hi v with
    | true, true =>
        match v - lo ?= hi - v with
        | Lt => Some lo
        | Gt => Some hi
        | Eq => if Z.even (v / p) then Some lo else Some hi
        end
    | true, false => Some lo
    | false, true => Some hi
    | false, false => None
    end
  else None.

(** The integer with the fewest significant digits that denotes [v]:
    coarser multiples are tried first. *)
Fixpoint shortest (fuel : nat) (j v : Z) : option Z :=
  match candidate j v with
  | Some w => Some w
  | None =>
      match fuel with
      | O => None
      | S fuel' => shortest fuel' (j - 1) v
      end
  end.

Fixpoint stripZeros (s : string) : string :=
  match s with
  | EmptyString => EmptyString
  | String c rest =>
      match stripZeros rest with
      | EmptyString => if Ascii.eqb c "0" then EmptyString else String c EmptyString
      | rest' => String c rest'
      end
  end.

(** Exponent notation: the significant digits with a point after the first
    one, then the decimal exponent. *)
Definition exponential (digits : string) : string :=
  match stripZeros digits with
  | EmptyString => EmptyString
  | String c EmptyString =>
      String c ("e+" ++ decimal (Z.of_nat (String.length digits) - 1))
  | String c rest =>
      String c ("." ++ rest ++ "e+" ++ decimal (Z.of_nat (String.length digits) - 1))
  end.

(** [String(v)] for a positive integer-valued double: the shortest digits
    that denote it, padded with zeros, and exponent notation from [1e21]
    on. *)
Definition positiveToString (v : Z) : string :=
  let w := match shortest (Z.to_nat (Z.log2 v)) (Z.log2 v) v with
           | Some w => w
           | None => v
           end in
  if w <? 10 ^ 21 then decimal w else exponential (decimal w).

(** [String(a)] for a value of [Math.floor]. *)
Definition toString (a : Integral) : string :=
  match a with
  | Int 0 => "0"
  | Int (Zpos p) => positiveToString (Zpos p)
  | Int (Zneg p) => "-" ++ positiveToString (Zpos p)
  | IntInfinity false => "Infinity"
  | IntInfinity true => "-Infinity"
  | IntNaN => "NaN"
  end.

(** Truthiness of a string: only the empty string is falsy. *)
Definition truthy (s : string) : bool :=
  match s with
  | EmptyString => false
  | String _ _ => true
  end.

End Js.

(** A finite property of a DOM object where a number is expected. *)
Coercion Js.Fin : Q >-> Js.Number.
Bind Scope Q_scope with Js.Number.

Arguments Js.round64 : simpl never.
Arguments Js.add : simpl never.

(** ** The time formatter *)

(** [formatTime(seconds)]:
<<
    const min = Math.floor(seconds / 60);
    const sec = Math.floor(seconds % 60);
    return `${min}:${(sec < 10 ? '0' : '') + sec}`;
>> *)
Definition formatTime (seconds : Js.Number) : string :=
  let min := Js.floor (Js.div seconds 60) in
  let sec := Js.floor (Js.rem seconds 60) in
  Js.toString min ++ ":" ++ ((if Js.lt sec 10 then "0" else "") ++ Js.toString sec).

(** ** DOM objects

    Each record keeps the properties that the widget reads or writes.  A
    range input's [min], [max], [step] and [value] are strings in the DOM;
    the widget only ever writes [n.toString()] and reads the value back with
    unary [+], so the model keeps the number that the string denotes
    ([None] is the non-numeric string that [NaN.toString()] yields).  What
    the browser makes of an assigned value, such as rounding it to the
    step, is not part of the widget and is left out. *)

(** The closures that the widget passes to [addEventListener]; each one
    captures [this]. *)
Inductive Listener :=
| OnUpdateProgress          (* () => this.updateProgress() *)
| OnLoadedMetadata          (* sets progressBar.max and the duration text *)
| OnProgressInput           (* isSeeking = true; currentTime = +progressBar.value *)
| OnProgressChange          (* isSeeking = false *)
| OnVolumeInput             (* videoElement.volume = +volumeBar.value *)
| OnTogglePlay              (* () => this.togglePlay() *)
| OnSkipTime (seconds : Q)  (* () => this.skipTime(seconds) *)
| OnToggleMute              (* () => this.toggleMute() *)
| OnToggleFullscreen.       (* () => this.toggleFullscreen() *)

Definition Listeners := list (string * Listener).

Module Video.
Record t := mk {
  src : string;
  classList : list string;
  style_width : string;
  currentTime : Q;
  duration : option Q;
  paused : bool;
  muted : bool;
  volume : Q;
  listeners : Listeners
}.

(** [document.createElement('video')]: no source, position 0, duration
    [NaN], paused, not muted, full volume. *)
Definition create : t :=
  mk "" [] "" 0%Q None true false 1%Q [].

Definition set_src (x : string) (v : t) : t :=
  mk x (classList v) (style_width v) (currentTime v) (duration v)
     (paused v) (muted v) (volume v) (listeners v).
Definition classList_add (c : string) (v : t) : t :=
  mk (src v) (classList v ++ [c])%list (style_width v) (currentTime v) (duration v)
     (paused v) (muted v) (volume v) (listeners v).
Definition set_style_width (x : string) (v : t) : t :=
  mk (src v) (classList v) x (currentTime v) (duration v)
     (paused v) (muted v) (volume v) (listeners v).
Definition set_currentTime (x : Q) (v : t) : t :=
  mk (src v) (classList v) (style_width v) x (duration v)
     (paused v) (muted v) (volume v) (listeners v).
Definition set_duration (x : option Q) (v : t) : t :=
  mk (src v) (classList v) (style_width v) (currentTime v) x
     (paused v) (muted v) (volume v) (listeners v).
Definition set_paused (x : bool) (v : t) : t :=
  mk (src v) (classList v) (style_width v) (currentTime v) (duration v)
     x (muted v) (volume v) (listeners v).
Definition set_muted (x : bool) (v : t) : t :=
  mk (src v) (classList v) (style_width v) (currentTime v) (duration v)
     (paused v) x (volume v) (listeners v).
Definition set_volume (x : Q) (v : t) : t :=
  mk (src v) (classList v) (style_width v) (currentTime v) (duration v)
     (paused v) (muted v) x (listeners v).
Definition addEventListener (type : string) (l : Listener) (v : t) : t :=
  mk (src v) (classList v) (style_width v) (currentTime v) (duration v)
     (paused v) (muted v) (volume v) (listeners v ++ [(type, l)])%list.

(** [play()] and [pause()] clear and set the [paused] attribute. *)
Definition play (v : t) : t := set_paused false v.
Definition pause (v : t) : t := set_paused true v.
End Video.

Module Button.
(** A button and the [<i>] icon that is its first element child. *)
Record t := mk {
  icon_className : string;
  classList : list string;
  listeners : Listeners
}.

Definition set_icon_className (x : string) (b : t) : t :=
  mk x (classList b) (listeners b).
End Button.

Module Range.
Record t := mk {
  type : string;
  min : Q;
  max : option Q;
  step : Q;
  value : Q;
  classList : list string;
  listeners : Listeners
}.

Definition set_max (x : option Q) (i : t) : t :=
  mk (type i) (min i) x (step i) (value i) (classList i) (listeners i).
Definition set_value (x : Q) (i : t) : t :=
  mk (type i) (min i) (max i) (step i) x (classList i) (listeners i).
Definition addEventListener (ty : string) (l : Listener) (i : t) : t :=
  mk (type i) (min i) (max i) (step i) (value i) (classList i)
     (listeners i ++ [(ty, l)])%list.
End Range.

Module Span.
Record t := mk {
  textContent : string;
  style_color : string
}.

Definition set_textContent (x : string) (s : t) : t :=
  mk x (style_color s).
End Span.

(** A [<div>]: its class and its children. *)
Record HTMLDivElement (N : Type) := mkDiv {
  div_classList : list string;
  div_children : list N
}.
Arguments mkDiv {N}.
Arguments div_classList {N}.
Arguments div_children {N}.

(** A node of the document tree, as it was when it was appended.  The tree
    records what the constructor built and where; the live state of the
    widget's elements (position, volume, texts, icons) is that of the
    player's fields, where the handlers read and write it, and the tree says
    nothing of it. *)
#[warnings="-register-all"]
Inductive Node :=
| VideoNode (v : Video.t)
| ButtonNode (b : Button.t)
| InputNode (i : Range.t)
| SpanNode (s : Span.t)
| DivNode (d : HTMLDivElement Node)
| StyleNode (textContent : string).

(** What [document.fullscreenElement] can hold. *)
Inductive FullscreenElement :=
| FullscreenVideo (containerId : string)
| FullscreenOther.

(** The document: the elements that carry an id (in document order, with
    their children), the children of [<head>], and the fullscreen element.
    [created] counts the calls of [document.createElement]. *)
Record Document := mkDocument {
  elements : list (string * list Node);
  head : list Node;
  fullscreenElement : option FullscreenElement;
  created : nat
}.

(** ** Code that runs against the document

    A computation takes the document and returns the document it leaves
    behind together with its completion: a value, or the error it threw.
    What was mutated before a [throw] stays mutated. *)

Inductive Error := mkError (message : string).

Inductive Completion (A : Type) :=
| Normal (a : A)
| Throw (e : Error).
Arguments Normal {A}.
Arguments Throw {A}.

Definition Dom (A : Type) : Type := Document -> Document * Completion A.

Definition ret {A} (a : A) : Dom A := fun doc => (doc, Normal a).

Definition throw {A} (e : Error) : Dom A := fun doc => (doc, Throw e).

Definition bind {A B} (m : Dom A) (k : A -> Dom B) : Dom B :=
  fun doc =>
    match m doc with
    | (doc', Normal a) => k a doc'
    | (doc', Throw e) => (doc', Throw e)
    end.

(** [if (b) m;] *)
Definition when (b : bool) (m : Dom unit) : Dom unit :=
  if b then m else ret tt.

(** [!x] for an object reference that may be [null]. *)
Definition isNull {A} (x : option A) : bool :=
  match x with
  | None => true
  | Some _ => false
  end.

Notation "x <- m ;; k" := (bind m (fun x => k))
  (at level 61, m at next level, right associativity).
Notation "m ;; k" := (bind m (fun _ => k))
  (at level 61, right associativity).

(** [document.getElementById(id)]: the first element with that id, or
    [null]. *)
Fixpoint lookupId (id : string) (els : list (string * list Node)) : option (list Node) :=
  match els with
  | [] => None
  | (id', children) :: rest =>
      if String.eqb id id' then Some children else lookupId id rest
  end.

Definition getElementById (id : string) : Dom (option (list Node)) :=
  fun doc => (doc, Normal (lookupId id (elements doc))).

(** [document.createElement(tag)]; the caller builds the object. *)
Definition createElement (tag : string) : Dom unit :=
  fun doc =>
    (mkDocument (elements doc) (head doc) (fullscreenElement doc) (S (created doc)),
     Normal tt).

(** Appending to the element that [getElementById(id)] returned. *)
Fixpoint appendAt (id : string) (new : list Node) (els : list (string * list Node))
  : list (string * list Node) :=
  match els with
  | [] => []
  | (id', children) :: rest =>
      if String.eqb id id' then (id', (children ++ new)%list) :: rest
      else (id', children) :: appendAt id new rest
  end.

Definition appendToContainer (id : string) (new : list Node) : Dom unit :=
  fun doc =>
    (mkDocument (appendAt id new (elements doc)) (head doc)
                (fullscreenElement doc) (created doc),
     Normal tt).

(** [document.head.appendChild(node)]. *)
Definition appendToHead (n : Node) : Dom unit :=
  fun doc =>
    (mkDocument (elements doc) (head doc ++ [n])%list
                (fullscreenElement doc) (created doc),
     Normal tt).

(** ** The player *)

Record CustomVideoPlayer := mkPlayer {
  containerId : string;
  videoUrl : string;
  videoElement : Video.t;
  controlsContainer : HTMLDivElement Node;
  playPauseBtn : Button.t;
  progressBar : Range.t;
  volumeBar : Range.t;
  fullscreenBtn : Button.t;
  currentTimeDisplay : Span.t;
  durationDisplay : Span.t;
  muteBtn : Button.t;
  skipBackwardBtn : Button.t;
  skipForwardBtn : Button.t;
  isSeeking : bool;
  previousVolume : Q
}.

Definition set_videoElement (x : Video.t) (p : CustomVideoPlayer) :=
  mkPlayer (containerId p) (videoUrl p) x (controlsContainer p)
    (playPauseBtn p) (progressBar p) (volumeBar p) (fullscreenBtn p)
    (currentTimeDisplay p) (durationDisplay p) (muteBtn p)
    (skipBackwardBtn p) (skipForwardBtn p) (isSeeking p) (previousVolume p).

Definition set_playPauseBtn (x : Button.t) (p : CustomVideoPlayer) :=
  mkPlayer (containerId p) (videoUrl p) (videoElement p) (controlsContainer p)
    x (progressBar p) (volumeBar p) (fullscreenBtn p)
    (currentTimeDisplay p) (durationDisplay p) (muteBtn p)
    (skipBackwardBtn p) (skipForwardBtn p) (isSeeking p) (previousVolume p).

Definition set_progressBar (x : Range.t) (p : CustomVideoPlayer) :=
  mkPlayer (containerId p) (videoUrl p) (videoElement p) (controlsContainer p)
    (playPauseBtn p) x (volumeBar p) (fullscreenBtn p)
    (currentTimeDisplay p) (durationDisplay p) (muteBtn p)
    (skipBackwardBtn p) (skipForwardBtn p) (isSeeking p) (previousVolume p).

Definition set_volumeBar (x : Range.t) (p : CustomVideoPlayer) :=
  mkPlayer (containerId p) (videoUrl p) (videoElement p) (controlsContainer p)
    (playPauseBtn p) (progressBar p) x (fullscreenBtn p)
    (currentTimeDisplay p) (durationDisplay p) (muteBtn p)
    (skipBackwardBtn p) (skipForwardBtn p) (isSeeking p) (previousVolume p).

Definition set_currentTimeDisplay (x : Span.t) (p : CustomVideoPlayer) :=
  mkPlayer (containerId p) (videoUrl p) (videoElement p) (controlsContainer p)
    (playPauseBtn p) (progressBar p) (volumeBar p) (fullscreenBtn p)
    x (durationDisplay p) (muteBtn p)
    (skipBackwardBtn p) (skipForwardBtn p) (isSeeking p) (previousVolume p).

Definition set_durationDisplay (x : Span.t) (p : CustomVideoPlayer) :=
  mkPlayer (containerId p) (videoUrl p) (videoElement p) (controlsContainer p)
    (playPauseBtn p) (progressBar p) (volumeBar p) (fullscreenBtn p)
    (currentTimeDisplay p) x (muteBtn p)
    (skipBackwardBtn p) (skipForwardBtn p) (isSeeking p) (previousVolume p).

Definition set_muteBtn (x : Button.t) (p : CustomVideoPlayer) :=
  mkPlayer (containerId p) (videoUrl p) (videoElement p) (controlsContainer p)
    (playPauseBtn p) (progressBar p) (volumeBar p) (fullscreenBtn p)
    (currentTimeDisplay p) (durationDisplay p) x
    (skipBackwardBtn p) (skipForwardBtn p) (isSeeking p) (previousVolume p).

Definition set_isSeeking (x : bool) (p : CustomVideoPlayer) :=
  mkPlayer (containerId p) (videoUrl p) (videoElement p) (controlsContainer p)
    (playPauseBtn p) (progressBar p) (volumeBar p) (fullscreenBtn p)
    (currentTimeDisplay p) (durationDisplay p) (muteBtn p)
    (skipBackwardBtn p) (skipForwardBtn p) x (previousVolume p).

Definition set_previousVolume (x : Q) (p : CustomVideoPlayer) :=
  mkPlayer (containerId p) (videoUrl p) (videoElement p) (controlsContainer p)
    (playPauseBtn p) (progressBar p) (volumeBar p) (fullscreenBtn p)
    (currentTimeDisplay p) (durationDisplay p) (muteBtn p)
    (skipBackwardBtn p) (skipForwardBtn p) (isSeeking p) x.

(** ** Construction *)

Section Construction.

Variables (containerId0 videoUrl0 : string).

(** [validateInputs()]:
<<
    const container = document.getElementById(this.containerId);
    if (!container) throw new Error(`Invalid container ID: ${this.containerId}`);
    if (!this.videoUrl) throw new Error('Video URL is required.');
>> *)
Definition validateInputs : Dom unit :=
  container <- getElementById containerId0 ;;
  when (isNull container)
    (throw (mkError ("Invalid container ID: " ++ containerId0))) ;;
  when (negb (Js.truthy videoUrl0))
    (throw (mkError "Video URL is required.")).

Definition createVideoElement : Dom Video.t :=
  createElement "video" ;;
  let video := Video.create in
  let video := Video.set_src videoUrl0 video in
  let video := Video.classList_add "video" video in
  let video := Video.set_style_width "100%" video in
  ret video.

(** The button gets an [<i>] child with the icon class, the class
    [control-btn] and a click listener. *)
Definition createButton (iconClass : string) (onClick : Listener) : Dom Button.t :=
  createElement "button" ;;
  createElement "i" ;;
  ret (Button.mk iconClass ["control-btn"] [("click", onClick)]).

(** [step] and [value] are optional and default to ['1'] and ['0']. *)
Definition createRangeInput (min max : Q) (className : string)
    (step value : option Q) : Dom Range.t :=
  createElement "input" ;;
  ret (Range.mk "range" min (Some max)
         (match step with Some x => x | None => 1%Q end)
         (match value with Some x => x | None => 0%Q end)
         [className] []).

Definition createSpan (text : string) : Dom Span.t :=
  createElement "span" ;;
  ret (Span.mk text "#fff").

Definition appendChildren (parent : HTMLDivElement Node) (children : list Node)
  : HTMLDivElement Node :=
  mkDiv (div_classList parent) (div_children parent ++ children)%list.

Definition createDiv (className : string) (children : list Node)
  : Dom (HTMLDivElement Node) :=
  createElement "div" ;;
  ret (appendChildren (mkDiv [className] []) children).

(** [createElements()].  The two fields with initialisers, [isSeeking] and
    [previousVolume], already hold [false] and [1] when it runs. *)
Definition createElements : Dom CustomVideoPlayer :=
  _ <- getElementById containerId0 ;;
  videoElement <- createVideoElement ;;
  controlsContainer <- createDiv "controls" [] ;;
  playPauseBtn <- createButton "fa-solid fa-play" OnTogglePlay ;;
  skipBackwardBtn <- createButton "fa-solid fa-backward" (OnSkipTime (-5)) ;;
  skipForwardBtn <- createButton "fa-solid fa-forward" (OnSkipTime 5) ;;
  progressBar <- createRangeInput 0 0 "progress-bar" None None ;;
  volumeBar <- createRangeInput 0 1 "volume-bar" (Some 0.01%Q) (Some 1%Q) ;;
  muteBtn <- createButton "fa-solid fa-volume-up" OnToggleMute ;;
  fullscreenBtn <- createButton "fa-solid fa-expand" OnToggleFullscreen ;;
  currentTimeDisplay <- createSpan "00:00" ;;
  durationDisplay <- createSpan "00:00" ;;
  timeContainer <- createDiv "time-container"
    [SpanNode currentTimeDisplay; InputNode progressBar; SpanNode durationDisplay] ;;
  let controlsContainer := appendChildren controlsContainer
    [ButtonNode playPauseBtn; ButtonNode skipBackwardBtn; ButtonNode skipForwardBtn;
     ButtonNode muteBtn; InputNode volumeBar; ButtonNode fullscreenBtn;
     DivNode timeContainer] in
  appendToContainer containerId0 [VideoNode videoElement; DivNode controlsContainer] ;;
  ret (mkPlayer containerId0 videoUrl0 videoElement controlsContainer
         playPauseBtn progressBar volumeBar fullscreenBtn
         currentTimeDisplay durationDisplay muteBtn
         skipBackwardBtn skipForwardBtn false 1%Q).

(** [setupEventListeners()]. *)
Definition setupEventListeners (p : CustomVideoPlayer) : CustomVideoPlayer :=
  let p := set_videoElement
    (Video.addEventListener "timeupdate" OnUpdateProgress (videoElement p)) p in
  let p := set_videoElement
    (Video.addEventListener "loadedmetadata" OnLoadedMetadata (videoElement p)) p in
  let p := set_progressBar
    (Range.addEventListener "input" OnProgressInput (progressBar p)) p in
  let p := set_progressBar
    (Range.addEventListener "change" OnProgressChange (progressBar p)) p in
  let p := set_volumeBar
    (Range.addEventListener "input" OnVolumeInput (volumeBar p)) p in
  p.

Definition styleText : string :=
  "
        #" ++ containerId0 ++ " {
            max-width: 600px;
            margin: 0 auto;
            position: relative;
            border-radius: 10px;
            overflow: hidden;
            background: black;
        }
        .video {
            display: block;
            width: 100%;
            height: auto;
        }
        .controls {
            position: absolute;
            bottom: 0;
            left: 0;
            right: 0;
            background: rgba(67, 75, 117, 0.7);
            padding: 10px;
            display: flex;
            align-items: center;
            justify-content: space-between;
            gap: 10px;
        }
        .control-btn {
            background: none;
            border: none;
            color: white;
            font-size: 20px;
            cursor: pointer;
            width: 30px;
            height: 30px;
            display: flex;
            align-items: center;
            justify-content: center;
        }
        .time-container {
            display: flex;
            align-items: center;
            gap: 8px;
            flex-grow: 1;
        }
        .progress-bar {
          -webkit-appearance: none;
            appearance: none;
            width: 100%;
            height: 6px;
            background: rgba(67, 75, 117, 0.7);  
            border-radius: 5px;
            outline: none;
            cursor: pointer;
        }
      
        .volume-bar {
            width: 80px;
            height: 5px;
            border-radius: 5px;
            cursor: pointer;
            transition: height 0.2s;
            outline: none;
        }
        
        .time-container span {
            color: white;
            font-size: 14px;
        }
    ".

(** [addStyles()]. *)
Definition addStyles : Dom unit :=
  createElement "style" ;;
  appendToHead (StyleNode styleText).

(** [new CustomVideoPlayer(containerId, videoUrl)]. *)
Definition constructor : Dom CustomVideoPlayer :=
  validateInputs ;;
  p <- createElements ;;
  let p := setupEventListeners p in
  addStyles ;;
  ret p.

End Construction.

Arguments styleText : simpl never.

(** ** The playback engine

    The position of playback belongs to the engine: a script that assigns to
    [currentTime] asks for a seek, and the engine decides where playback
    lands.  [seek v x] is the position that the engine [v] adopts when [x]
    is assigned. *)
Class MediaEngine := {
  seek : Video.t -> Q -> Q
}.

(** An engine that clamps a requested position to [[0, duration]], which is
    what the widget leaves to the engine.  Without a known duration only
    the lower bound applies. *)
Definition clampingEngine : MediaEngine :=
  {| seek := fun v x =>
       if Qle_bool x 0 then 0%Q
       else match Video.duration v with
            | Some d => if Qle_bool d x then d else x
            | None => x
            end |}.

(** ** Handlers *)

Section Handlers.

Context {engine : MediaEngine}.

(** [video.currentTime = x]. *)
Definition assign_currentTime (x : Q) (v : Video.t) : Video.t :=
  Video.set_currentTime (seek v x) v.

(** [togglePlay()]. *)
Definition togglePlay (p : CustomVideoPlayer) : CustomVideoPlayer :=
  if Video.paused (videoElement p) then
    let p := set_videoElement (Video.play (videoElement p)) p in
    set_playPauseBtn (Button.set_icon_className "fa-solid fa-pause" (playPauseBtn p)) p
  else
    let p := set_videoElement (Video.pause (videoElement p)) p in
    set_playPauseBtn (Button.set_icon_className "fa-solid fa-play" (playPauseBtn p)) p.

(** [toggleMute()]. *)
Definition toggleMute (p : CustomVideoPlayer) : CustomVideoPlayer :=
  if Video.muted (videoElement p) then
    let p := set_videoElement (Video.set_muted false (videoElement p)) p in
    let p := set_videoElement (Video.set_volume (previousVolume p) (videoElement p)) p in
    let p := set_volumeBar (Range.set_value (previousVolume p) (volumeBar p)) p in
    set_muteBtn (Button.set_icon_className "fa-solid fa-volume-up" (muteBtn p)) p
  else
    let p := set_previousVolume (Video.volume (videoElement p)) p in
    let p := set_videoElement (Video.set_muted true (videoElement p)) p in
    let p := set_videoElement (Video.set_volume 0 (videoElement p)) p in
    let p := set_volumeBar (Range.set_value 0 (volumeBar p)) p in
    set_muteBtn (Button.set_icon_className "fa-solid fa-volume-xmark" (muteBtn p)) p.

(** [toggleFullscreen()]; it is the only handler that touches the document. *)
Definition exitFullscreen (doc : Document) : Document :=
  mkDocument (elements doc) (head doc) None (created doc).

Definition requestFullscreen (p : CustomVideoPlayer) (doc : Document) : Document :=
  mkDocument (elements doc) (head doc)
             (Some (FullscreenVideo (containerId p))) (created doc).

Definition toggleFullscreen (p : CustomVideoPlayer) (doc : Document) : Document :=
  match fullscreenElement doc with
  | Some _ => exitFullscreen doc
  | None => requestFullscreen p doc
  end.

(** [skipTime(seconds)]: [this.videoElement.currentTime += seconds].  The
    sum is a double; the engine refuses a sum that is not finite with a
    [TypeError], which ends the handler with nothing changed. *)
Definition skipTime (seconds : Q) (p : CustomVideoPlayer) : CustomVideoPlayer :=
  match Js.add (Video.currentTime (videoElement p)) seconds with
  | Js.Fin sum => set_videoElement (assign_currentTime sum (videoElement p)) p
  | _ => p
  end.

(** [updateProgress()]. *)
Definition updateProgress (p : CustomVideoPlayer) : CustomVideoPlayer :=
  if negb (isSeeking p) then
    let p := set_progressBar
      (Range.set_value (Video.currentTime (videoElement p)) (progressBar p)) p in
    set_currentTimeDisplay
      (Span.set_textContent (formatTime (Video.currentTime (videoElement p)))
                            (currentTimeDisplay p)) p
  else p.

(** The anonymous listeners of [setupEventListeners()]. *)
Definition onLoadedMetadata (p : CustomVideoPlayer) : CustomVideoPlayer :=
  let p := set_progressBar
    (Range.set_max (Video.duration (videoElement p)) (progressBar p)) p in
  set_durationDisplay
    (Span.set_textContent
       (formatTime (match Video.duration (videoElement p) with
                    | Some d => Js.Fin d
                    | None => Js.NaN
                    end))
       (durationDisplay p)) p.

Definition onProgressInput (p : CustomVideoPlayer) : CustomVideoPlayer :=
  let p := set_isSeeking true p in
  set_videoElement
    (assign_currentTime (Range.value (progressBar p)) (videoElement p)) p.

Definition onProgressChange (p : CustomVideoPlayer) : CustomVideoPlayer :=
  set_isSeeking false p.

Definition onVolumeInput (p : CustomVideoPlayer) : CustomVideoPlayer :=
  set_videoElement
    (Video.set_volume (Range.value (volumeBar p)) (videoElement p)) p.

(** ** Events *)

(** The page: the document and the widget mounted in it.  The listeners act
    on the elements through the player's fields; only [toggleFullscreen]
    reaches for the document itself. *)
Record Page := mkPage {
  document : Document;
  widget : CustomVideoPlayer
}.

Definition on_widget (f : CustomVideoPlayer -> CustomVideoPlayer) (w : Page) : Page :=
  mkPage (document w) (f (widget w)).

Definition runListener (l : Listener) (w : Page) : Page :=
  match l with
  | OnUpdateProgress => on_widget updateProgress w
  | OnLoadedMetadata => on_widget onLoadedMetadata w
  | OnProgressInput => on_widget onProgressInput w
  | OnProgressChange => on_widget onProgressChange w
  | OnVolumeInput => on_widget onVolumeInput w
  | OnTogglePlay => on_widget togglePlay w
  | OnSkipTime seconds => on_widget (skipTime seconds) w
  | OnToggleMute => on_widget toggleMute w
  | OnToggleFullscreen => mkPage (toggleFullscreen (widget w) (document w)) (widget w)
  end.

(** The elements of the widget that carry listeners. *)
Inductive Target :=
| TheVideo
| TheProgressBar
| TheVolumeBar
| ThePlayPauseBtn
| TheSkipBackwardBtn
| TheSkipForwardBtn
| TheMuteBtn
| TheFullscreenBtn.

Definition listenersOf (p : CustomVideoPlayer) (t : Target) : Listeners :=
  match t with
  | TheVideo => Video.listeners (videoElement p)
  | TheProgressBar => Range.listeners (progressBar p)
  | TheVolumeBar => Range.listeners (volumeBar p)
  | ThePlayPauseBtn => Button.listeners (playPauseBtn p)
  | TheSkipBackwardBtn => Button.listeners (skipBackwardBtn p)
  | TheSkipForwardBtn => Button.listeners (skipForwardBtn p)
  | TheMuteBtn => Button.listeners (muteBtn p)
  | TheFullscreenBtn => Button.listeners (fullscreenBtn p)
  end.

(** Dispatching an event of the given type at a target runs the listeners
    registered there for that type, in registration order. *)
Definition registered (type : string) (ls : Listeners) : list Listener :=
  map snd (filter (fun tl => String.eqb (fst tl) type) ls).

Definition fire (t : Target) (type : string) (w : Page) : Page :=
  fold_left (fun w l => runListener l w) (registered type (listenersOf (widget w) t)) w.

(** What the user and the engine do to the page.  An event that reports a
    new engine or slider state carries it: the state changes, then the
    listeners run. *)
Inductive Event :=
| Click (b : Target)          (* the user clicks a control *)
| TimeUpdate (t : Q)          (* playback has reached [t] *)
| LoadedMetadata (d : Q)      (* the duration [d] has become known *)
| ProgressInput (v : Q)       (* the user drags the seek slider to [v] *)
| ProgressChange              (* the user releases the seek slider *)
| VolumeInput (v : Q)         (* the user drags the volume slider to [v] *)
| Ended.                      (* playback reaches the end: the engine pauses *)

Definition step (e : Event) (w : Page) : Page :=
  match e with
  | Click b => fire b "click" w
  | TimeUpdate t =>
      fire TheVideo "timeupdate"
        (on_widget (fun p => set_videoElement (Video.set_currentTime t (videoElement p)) p) w)
  | LoadedMetadata d =>
      fire TheVideo "loadedmetadata"
        (on_widget (fun p => set_videoElement (Video.set_duration (Some d) (videoElement p)) p) w)
  | ProgressInput v =>
      fire TheProgressBar "input"
        (on_widget (fun p => set_progressBar (Range.set_value v (progressBar p)) p) w)
  | ProgressChange => fire TheProgressBar "change" w
  | VolumeInput v =>
      fire TheVolumeBar "input"
        (on_widget (fun p => set_volumeBar (Range.set_value v (volumeBar p)) p) w)
  | Ended =>
      fire TheVideo "ended"
        (on_widget (fun p => set_videoElement (Video.pause (videoElement p)) p) w)
  end.

Definition run (es : list Event) (w : Page) : Page :=
  fold_left (fun w e => step e w) es w.

End Handlers.

(** The page right after a construction that did not throw. *)
Definition mount (containerId videoUrl : string) (doc : Document) : option Page :=
  match constructor containerId videoUrl doc with
  | (doc', Normal p) => Some (mkPage doc' p)
  | (_, Throw _) => None
  end.

(** ** Wiring

    The listeners as [createElements] and [setupEventListeners] leave them.
    No handler adds or removes a listener. *)
Definition wired (p : CustomVideoPlayer) : Prop :=
  Video.listeners (videoElement p)
    = [("timeupdate", OnUpdateProgress); ("loadedmetadata", OnLoadedMetadata)]
  /\ Range.listeners (progressBar p)
    = [("input", OnProgressInput); ("change", OnProgressChange)]
  /\ Range.listeners (volumeBar p) = [("input", OnVolumeInput)]
  /\ Button.listeners (playPauseBtn p) = [("click", OnTogglePlay)]
  /\ Button.listeners (skipBackwardBtn p) = [("click", OnSkipTime (-5))]
  /\ Button.listeners (skipForwardBtn p) = [("click", OnSkipTime 5)]
  /\ Button.listeners (muteBtn p) = [("click", OnToggleMute)]
  /\ Button.listeners (fullscreenBtn p) = [("click", OnToggleFullscreen)].

(** What an event amounts to on a wired widget: the handler bound to it. *)
Definition react {engine : MediaEngine} (e : Event) (w : Page) : Page :=
  match e with
  | Click TheVideo | Click TheProgressBar | Click TheVolumeBar => w
  | Click ThePlayPauseBtn => on_widget togglePlay w
  | Click TheSkipBackwardBtn => on_widget (skipTime (-5)) w
  | Click TheSkipForwardBtn => on_widget (skipTime 5) w
  | Click TheMuteBtn => on_widget toggleMute w
  | Click TheFullscreenBtn => mkPage (toggleFullscreen (widget w) (document w)) (widget w)
  | TimeUpdate t =>
      on_widget (fun p =>
        updateProgress (set_videoElement (Video.set_currentTime t (videoElement p)) p)) w
  | LoadedMetadata d =>
      on_widget (fun p =>
        onLoadedMetadata (set_videoElement (Video.set_duration (Some d) (videoElement p)) p)) w
  | ProgressInput v =>
      on_widget (fun p =>
        onProgressInput (set_progressBar (Range.set_value v (progressBar p)) p)) w
  | ProgressChange => on_widget onProgressChange w
  | VolumeInput v =>
      on_widget (fun p =>
        onVolumeInput (set_volumeBar (Range.set_value v (volumeBar p)) p)) w
  | Ended =>
      on_widget (fun p => set_videoElement (Video.pause (videoElement p)) p) w
  end.

(** ** Sample pages

    The first instantiation of the source file,
    [new CustomVideoPlayer("video1", "../videos/Nice-1.mp4")], on a document
    that has the two mount points. *)
Definition sampleDocument : Document :=
  mkDocument [("video1", []); ("video2", [])] [] None 0.

(** A player none of whose elements has been created yet; it only serves
    as the default of [samplePage]. *)
Definition blankPlayer : CustomVideoPlayer :=
  mkPlayer "" "" Video.create (mkDiv [] [])
    (Button.mk "" [] []) (Range.mk "" 0 None 0 0 [] [])
    (Range.mk "" 0 None 0 0 [] []) (Button.mk "" [] [])
    (Span.mk "" "") (Span.mk "" "") (Button.mk "" [] [])
    (Button.mk "" [] []) (Button.mk "" [] []) false 1.

Definition samplePage : Page :=
  match mount "video1" "../videos/Nice-1.mp4" sampleDocument with
  | Some w => w
  | None => mkPage sampleDocument blankPlayer
  end.

(** ** The format as the specification words it *)

Fixpoint countChar (c : ascii) (s : string) : nat :=
  match s with
  | EmptyString => O
  | String a rest => ((if Ascii.eqb a c then 1 else 0) + countChar c rest)%nat
  end.

(** A rendering has a leading zero when it starts with ["0"] and goes on. *)
Definition leadingZero (s : string) : bool :=
  match s with
  | String "0" (String _ _) => true
  | _ => false
  end.

(** A rendering that starts with two zeros. *)
Definition twoZeros (s : string) : bool :=
  match s with
  | String "0" (String "0" _) => true
  | _ => false
  end.

Definition digitChar (n : Z) : ascii :=
  ascii_of_nat (48 + Z.to_nat n).

(** A value below one hundred written with exactly two digits. *)
Definition twoDigits (n : Z) : string :=
  String (digitChar (n / 10)) (String (digitChar (n mod 10)) EmptyString).

(** The format as the specification words it: the floor of the minutes,
    a colon, and the floor of what is left of the seconds on two digits. *)
Definition formatTime_spec (d : Q) : string :=
  let minutes := Qfloor (d / 60) in
  let seconds := Qfloor (d - 60 * inject_Z minutes) in
  Js.decimal minutes ++ ":" ++ twoDigits seconds.


(** ** Observations *)

(** An icon class names a glyph when the name of the glyph occurs in it:
    ['fa-solid fa-play'] names [play]. *)
Definition namesGlyph (glyph className : string) : bool :=
  match String.index 0 glyph className with
  | Some _ => true
  | None => false
  end.

(** What the page shows of the widget: its DOM objects.  The two plain
    fields, [isSeeking] and [previousVolume], are not among them. *)
Definition rendered (p : CustomVideoPlayer) :=
  (videoElement p, controlsContainer p, playPauseBtn p, skipBackwardBtn p,
   skipForwardBtn p, muteBtn p, volumeBar p, fullscreenBtn p,
   currentTimeDisplay p, progressBar p, durationDisplay p).

Definition elapsedText (w : Page) : string :=
  Span.textContent (currentTimeDisplay (widget w)).

Definition durationText (w : Page) : string :=
  Span.textContent (durationDisplay (widget w)).

Definition engineOf (w : Page) : Video.t := videoElement (widget w).

Definition positionOf (p : CustomVideoPlayer) : Q :=
  Video.currentTime (videoElement p).

(** The page with another remembered volume. *)
Definition remembering (x : Q) (w : Page) : Page :=
  on_widget (set_previousVolume x) w.

(** The event takes the mute branch, respectively the unmute branch, of
    [toggleMute]. *)
Definition takesMuteBranch (e : Event) (w : Page) : bool :=
  match e with
  | Click TheMuteBtn => negb (Video.muted (engineOf w))
  | _ => false
  end.

Definition takesUnmuteBranch (e : Event) (w : Page) : bool :=
  match e with
  | Click TheMuteBtn => Video.muted (engineOf w)
  | _ => false
  end.

Definition isTimeUpdate (e : Event) : bool :=
  match e with TimeUpdate _ => true | _ => false end.

Definition isLoadedMetadata (e : Event) : bool :=
  match e with LoadedMetadata _ => true | _ => false end.

(** Some [timeupdate] of the trace arrived while the seeking flag was
    clear. *)
Fixpoint progressShown {engine : MediaEngine} (es : list Event) (w : Page) : bool :=
  match es with
  | [] => false
  | e :: rest =>
      (isTimeUpdate e && negb (isSeeking (widget w)))
      || progressShown rest (step e w)
  end.

(** The engine adopts the position [x] as requested: no clamping. *)
Definition honoured {engine : MediaEngine} (v : Video.t) (x : Q) : Prop :=
  (seek v x == x)%Q.

(** The engine adopts the position that [skipTime seconds] asks for. *)
Definition skipHonoured {engine : MediaEngine}
    (seconds : Q) (p : CustomVideoPlayer) : Prop :=
  match Js.add (positionOf p) seconds with
  | Js.Fin sum => honoured (videoElement p) sum
  | _ => False
  end.

(** ** The script

    The two statements that end the source file:
<<
    new CustomVideoPlayer("video1", "../videos/Nice-1.mp4");
    new CustomVideoPlayer("video2", "../videos/First-1.mp4");
>> *)
Definition main : Dom (CustomVideoPlayer * CustomVideoPlayer) :=
  first <- constructor "video1" "../videos/Nice-1.mp4" ;;
  second <- constructor "video2" "../videos/First-1.mp4" ;;
  ret (first, second).

(** ** Observations on traces *)

(** The seeking flag as the seek slider alone would leave it: set by a
    drag, cleared by a release. *)
Fixpoint seekingAfter (es : list Event) (seeking : bool) : bool :=
  match es with
  | [] => seeking
  | ProgressInput _ :: rest => seekingAfter rest true
  | ProgressChange :: rest => seekingAfter rest false
  | _ :: rest => seekingAfter rest seeking
  end.

Definition isEnded (e : Event) : bool :=
  match e with Ended => true | _ => false end.

(** The duration that the last [loadedmetadata] of the trace reported. *)
Fixpoint lastDuration (es : list Event) (known : option Q) : option Q :=
  match es with
  | [] => known
  | LoadedMetadata d :: rest => lastDuration rest (Some d)
  | _ :: rest => lastDuration rest known
  end.

(** A volume is a number between 0 and 1. *)
Definition isVolume (x : Q) : Prop := (0 <= x <= 1)%Q.

(** Every drag of the volume slider in the trace delivers a value of the
    slider's range, which [createElements] sets to [0, 1]. *)
Fixpoint volumeDragsInRange (es : list Event) : Prop :=
  match es with
  | [] => True
  | VolumeInput v :: rest => isVolume v /\ volumeDragsInRange rest
  | _ :: rest => volumeDragsInRange rest
  end.

(** A range input as [createRangeInput] returned it, before
    [setupEventListeners] ran. *)
Definition withoutListeners (i : Range.t) : Range.t :=
  Range.mk (Range.type i) (Range.min i) (Range.max i) (Range.step i)
           (Range.value i) (Range.classList i) [].

(** ** Doubles *)

(** The rationals that are finite doubles: an integer of less than 53 bits
    times a power of two within the exponent range. *)
Definition isDouble (x : Q) : Prop :=
  exists m e : Z,
    Z.abs m < 2 ^ 53 /\ -1074 <= e <= 971
    /\ (x == inject_Z m * Js.pow2 e)%Q.

(** * Properties *)

(** ** Doubles *)

Lemma pow2_pos (e : Z) : (0 < Js.pow2 e)%Q.
Proof. apply Qpower_0_lt. reflexivity. Qed.

Lemma pow2_add (a b : Z) : (Js.pow2 (a + b) == Js.pow2 a * Js.pow2 b)%Q.
Proof. apply Qpower_plus. discriminate. Qed.

Lemma pow2_int (e : Z) : 0 <= e -> (Js.pow2 e == inject_Z (2 ^ e))%Q.
Proof. intros H. unfold Js.pow2. now rewrite Zpower_Qpower. Qed.

Lemma pow2_lt (a b : Z) : a < b -> (Js.pow2 a < Js.pow2 b)%Q.
Proof. intros H. apply Qpower_lt_compat_l; [exact H|reflexivity]. Qed.

Lemma pow2_le (a b : Z) : a <= b -> (Js.pow2 a <= Js.pow2 b)%Q.
Proof. intros H. apply Qpower_le_compat_l; [exact H|discriminate]. Qed.

Lemma pow2_lt_inv (a b : Z) : (Js.pow2 a < Js.pow2 b)%Q -> a < b.
Proof. intros H. apply (Qpower_lt_compat_l_inv 2); [exact H|reflexivity]. Qed.

(** A rational that is an integer number of steps [2^g] is still one for
    any finer step. *)
Lemma finer_grid (x : Q) (M g g' : Z) :
  g' <= g -> (x == inject_Z M * Js.pow2 g)%Q ->
  (x == inject_Z (M * 2 ^ (g - g')) * Js.pow2 g')%Q.
Proof.
  intros H E. rewrite E, inject_Z_mult, <- pow2_int by lia.
  rewrite <- Qmult_assoc, <- pow2_add.
  replace (g - g' + g') with g by lia. reflexivity.
Qed.

(** ** The binary exponent *)

Lemma ilog2_spec (x : Q) :
  (0 < x)%Q -> (Js.pow2 (Js.ilog2 x) <= x < Js.pow2 (Js.ilog2 x + 1))%Q.
Proof.
  intros Hx. destruct x as [n d].
  assert (Hn : 0 < n) by (unfold Qlt in Hx; simpl in Hx; lia).
  unfold Js.ilog2. cbn [Qnum Qden].
  set (a := Z.log2 n). set (b := Z.log2 (Zpos d)).
  destruct (Z.log2_spec n Hn) as (A1 & A2). fold a in A1, A2.
  destruct (Z.log2_spec (Zpos d) ltac:(lia)) as (B1 & B2). fold b in B1, B2.
  assert (Ha : 0 <= a) by apply Z.log2_nonneg.
  assert (Hb : 0 <= b) by apply Z.log2_nonneg.
  assert (X : (n # d == inject_Z n / inject_Z (Zpos d))%Q) by apply Qmake_Qdiv.
  assert (Dpos : (0 < inject_Z (Zpos d))%Q) by reflexivity.
  (* n/d < 2^(a-b+1) and 2^(a-b-1) < n/d *)
  assert (Up : (n # d < Js.pow2 (a - b + 1))%Q).
  { apply Qmult_lt_r with (z := Js.pow2 b); [apply pow2_pos|].
    rewrite <- pow2_add. replace (a - b + 1 + b) with (a + 1) by lia.
    rewrite !pow2_int by lia.
    apply Qle_lt_trans with (y := inject_Z n).
    - unfold Qle, Qmult, inject_Z. cbn [Qnum Qden].
      rewrite Pos.mul_1_r. nia.
    - rewrite <- Zlt_Qlt. replace (Z.succ a) with (a + 1) in A2 by lia. exact A2. }
  assert (Low : (Js.pow2 (a - b - 1) <= n # d)%Q).
  { apply Qmult_le_r with (z := Js.pow2 (b + 1)); [apply pow2_pos|].
    rewrite <- pow2_add. replace (a - b - 1 + (b + 1)) with a by lia.
    rewrite !pow2_int by lia.
    apply Qle_trans with (y := inject_Z n).
    - rewrite <- Zle_Qle. exact A1.
    - unfold Qle, Qmult, inject_Z. cbn [Qnum Qden].
      rewrite Pos.mul_1_r.
      replace (Z.succ b) with (b + 1) in B2 by lia. nia. }
  destruct (Qle_bool (Js.pow2 (a - b)) (n # d)) eqn:C.
  - apply Qle_bool_iff in C. split; [exact C|exact Up].
  - split.
    + replace (a - b - 1) with (a - b - 1) by lia. exact Low.
    + replace (a - b - 1 + 1) with (a - b) by lia.
      apply Qnot_le_lt. intros C'. apply Qle_bool_iff in C'. congruence.
Qed.

Lemma ilog2_lt (x : Q) (b : Z) :
  (0 < x)%Q -> (x < Js.pow2 b)%Q -> Js.ilog2 x < b.
Proof.
  intros Hx H. destruct (ilog2_spec x Hx) as (L & _).
  apply pow2_lt_inv. eapply Qle_lt_trans; eassumption.
Qed.

Lemma ilog2_ge (x : Q) (a : Z) :
  (0 < x)%Q -> (Js.pow2 a <= x)%Q -> a <= Js.ilog2 x.
Proof.
  intros Hx H. destruct (ilog2_spec x Hx) as (_ & U).
  assert (a < Js.ilog2 x + 1); [|lia].
  apply pow2_lt_inv. eapply Qle_lt_trans; eassumption.
Qed.

(** ** Rounding to the nearest integer *)

Lemma roundHalfEven_int (y : Q) (k : Z) :
  (y == inject_Z k)%Q -> Js.roundHalfEven y = k.
Proof.
  intros E. unfold Js.roundHalfEven.
  assert (F : Qfloor y = k) by (rewrite E; apply Qfloor_Z).
  rewrite F.
  destruct (Qcompare_spec (y - inject_Z k) (1 # 2)) as [C|C|C]; rewrite E in C.
  - exfalso. revert C. unfold Qminus. rewrite Qplus_opp_r. discriminate.
  - reflexivity.
  - exfalso. revert C. unfold Qminus. rewrite Qplus_opp_r. discriminate.
Qed.

Lemma roundHalfEven_bounds (y : Q) (A B : Z) :
  (inject_Z A <= y <= inject_Z B)%Q -> A <= Js.roundHalfEven y <= B.
Proof.
  intros [HA HB]. unfold Js.roundHalfEven.
  pose proof (Qfloor_le y) as F1. pose proof (Qlt_floor y) as F2.
  rewrite inject_Z_plus in F2. change (inject_Z 1) with 1%Q in F2.
  assert (FA : A <= Qfloor y).
  { rewrite <- (Qfloor_Z A). now apply Qfloor_resp_le. }
  assert (FB : Qfloor y <= B).
  { rewrite <- (Qfloor_Z B). now apply Qfloor_resp_le. }
  assert (Up : (inject_Z (Qfloor y) < y)%Q -> Qfloor y + 1 <= B).
  { intros S. assert (Qfloor y < B); [|lia]. rewrite Zlt_Qlt. lra. }
  destruct (Qcompare_spec (y - inject_Z (Qfloor y)) (1 # 2)) as [C|C|C].
  - destruct (Z.even (Qfloor y)); [lia|]. split; [lia|apply Up; lra].
  - lia.
  - split; [lia|apply Up; lra].
Qed.

Lemma roundHalfEven_below (y : Q) (B : Z) :
  (y < inject_Z B - (1 # 2))%Q -> Js.roundHalfEven y < B.
Proof.
  intros H. unfold Js.roundHalfEven.
  pose proof (Qfloor_le y) as F1.
  assert (FB : Qfloor y < B) by (rewrite Zlt_Qlt; lra).
  assert (Up : ((1 # 2) <= y - inject_Z (Qfloor y))%Q -> Qfloor y + 1 < B).
  { intros S. assert (Qfloor y < B - 1); [|lia].
    rewrite Zlt_Qlt. unfold Z.sub. rewrite inject_Z_plus, inject_Z_opp.
    change (inject_Z 1) with 1%Q. lra. }
  destruct (Qcompare_spec (y - inject_Z (Qfloor y)) (1 # 2)) as [C|C|C].
  - destruct (Z.even (Qfloor y)); [lia|]. apply Up. lra.
  - lia.
  - apply Up. lra.
Qed.

(** ** Rounding to a double *)

Lemma floor_unique (x : Q) (k : Z) :
  (inject_Z k <= x < inject_Z (k + 1))%Q -> Qfloor x = k.
Proof.
  intros [Hlo Hhi].
  assert (A : k <= Qfloor x).
  { rewrite <- (Qfloor_Z k). now apply Qfloor_resp_le. }
  assert (B : Qfloor x < k + 1).
  { rewrite Zlt_Qlt. eapply Qle_lt_trans; [apply Qfloor_le|exact Hhi]. }
  lia.
Qed.

Lemma round64_pos (x : Q) :
  (0 < x)%Q ->
  Js.round64 x
  = (let r := (inject_Z (Js.roundHalfEven (x / Js.pow2 (Js.ulpExponent x)))
               * Js.pow2 (Js.ulpExponent x))%Q in
     if Qle_bool (Js.pow2 1024) r then Js.Infinity false else Js.Fin r).
Proof.
  intros Hx. destruct x as [[|n|n] d]; try discriminate Hx. reflexivity.
Qed.

Lemma round64_zero (x : Q) : (x == 0)%Q -> Js.round64 x = Js.Fin 0.
Proof.
  intros E. unfold Js.round64.
  now rewrite (proj2 (Qeq_bool_iff x 0) E).
Qed.

(** The scaled value [x / 2^e] lies between two integers when [x] lies
    between their multiples of [2^e]. *)
Lemma scaled_bounds (x : Q) (e A B : Z) :
  (inject_Z A * Js.pow2 e <= x <= inject_Z B * Js.pow2 e)%Q ->
  (inject_Z A <= x / Js.pow2 e <= inject_Z B)%Q.
Proof.
  intros [HA HB]. pose proof (pow2_pos e) as P.
  split.
  - apply Qle_shift_div_l; assumption.
  - apply Qle_shift_div_r; assumption.
Qed.

Lemma scaled_int (x : Q) (e M : Z) :
  (x == inject_Z M * Js.pow2 e)%Q -> (x / Js.pow2 e == inject_Z M)%Q.
Proof.
  intros E. rewrite E. pose proof (pow2_pos e) as P.
  field. intros Z0. rewrite Z0 in P. discriminate P.
Qed.

(** A positive double is a whole number of its own units in the last
    place. *)
Lemma double_on_grid (x : Q) :
  isDouble x -> (0 < x)%Q ->
  exists M, (x == inject_Z M * Js.pow2 (Js.ulpExponent x))%Q
            /\ (x < Js.pow2 1024)%Q.
Proof.
  intros (m & e & Hm & He & E) Hx.
  assert (M53 : (inject_Z m < Js.pow2 53)%Q).
  { rewrite pow2_int by lia. rewrite <- Zlt_Qlt. lia. }
  pose proof (pow2_pos e) as Pe.
  assert (Xlt : (x < Js.pow2 (53 + e))%Q).
  { rewrite E, pow2_add. apply Qmult_lt_r; assumption. }
  assert (L : Js.ilog2 x < 53 + e) by (apply ilog2_lt; assumption).
  assert (U : Js.ulpExponent x <= e) by (unfold Js.ulpExponent; lia).
  exists (m * 2 ^ (e - Js.ulpExponent x)). split.
  - apply finer_grid; assumption.
  - eapply Qlt_le_trans; [exact Xlt|]. apply pow2_le. lia.
Qed.

Lemma round64_double (x : Q) :
  isDouble x -> (0 <= x)%Q ->
  exists y, Js.round64 x = Js.Fin y /\ (y == x)%Q.
Proof.
  intros D Hx.
  destruct (Qlt_le_dec 0 x) as [Pos|Zero].
  - destruct (double_on_grid x D Pos) as (M & G & Big).
    rewrite (round64_pos x Pos). cbv zeta.
    rewrite (roundHalfEven_int _ M (scaled_int _ _ _ G)).
    destruct (Qle_bool (Js.pow2 1024) (inject_Z M * Js.pow2 (Js.ulpExponent x))) eqn:O.
    + exfalso. apply Qle_bool_iff in O. rewrite <- G in O.
      apply (Qlt_irrefl x). eapply Qlt_le_trans; eassumption.
    + eexists. split; [reflexivity|]. symmetry. exact G.
  - exists 0%Q. split; [apply round64_zero|]; lra.
Qed.

(** An integer is a whole number of steps [2^e] for every [e <= 0]. *)
Lemma integer_on_grid (N e : Z) :
  e <= 0 -> (inject_Z N == inject_Z (N * 2 ^ (0 - e)) * Js.pow2 e)%Q.
Proof.
  intros H. apply finer_grid; [exact H|].
  change (Js.pow2 0) with 1%Q. ring.
Qed.

(** Two whole numbers of steps, one above the other, are a step apart. *)
Lemma grid_gap (a b : Q) (A B e : Z) :
  (a == inject_Z A * Js.pow2 e)%Q -> (b == inject_Z B * Js.pow2 e)%Q ->
  (a < b)%Q -> (a + Js.pow2 e <= b)%Q.
Proof.
  intros Ea Eb L. pose proof (pow2_pos e) as P.
  assert (AB : A < B).
  { rewrite Zlt_Qlt. apply Qmult_lt_r with (z := Js.pow2 e); [exact P|].
    now rewrite <- Ea, <- Eb. }
  assert (AB' : (inject_Z A + 1 <= inject_Z B)%Q).
  { change 1%Q with (inject_Z 1). rewrite <- inject_Z_plus, <- Zle_Qle. lia. }
  rewrite Ea, Eb. nra.
Qed.

(** The quotient by 60 of a double below [2^53] is rounded to a double with
    the same whole part. *)
Lemma div60_whole (d : Q) :
  isDouble d -> (0 <= d)%Q -> (d < Js.pow2 53)%Q ->
  exists y, Js.div (Js.Fin d) 60 = Js.Fin y
            /\ Qfloor y = Qfloor (d / 60).
Proof.
  intros D Hd Hbig. unfold Js.div.
  change (inject_Z (Zpos 60)) with 60%Q.
  set (x := (d / 60)%Q).
  assert (Ex : (d == 60 * x)%Q) by (unfold x; field).
  destruct (Qlt_le_dec 0 d) as [Pos|Zero].
  2: { exists 0%Q. split; [apply round64_zero; lra|].
       assert (x == 0)%Q as -> by lra. reflexivity. }
  assert (Px : (0 < x)%Q) by lra.
  rewrite (round64_pos x Px). cbv zeta.
  set (ue := Js.ulpExponent x).
  set (k := Qfloor x).
  pose proof (Qfloor_le x) as K1. pose proof (Qlt_floor x) as K2.
  fold k in K1, K2. rewrite inject_Z_plus in K2. change (inject_Z 1) with 1%Q in K2.
  assert (Hk : 0 <= k).
  { unfold k. change 0 with (Qfloor 0). apply Qfloor_resp_le. lra. }
  pose proof (pow2_pos ue) as Pue.
  (* the unit of the quotient is small *)
  assert (P48 : (Js.pow2 53 == 32 * Js.pow2 48)%Q) by reflexivity.
  assert (Lx : Js.ilog2 x < 48) by (apply ilog2_lt; [exact Px|lra]).
  assert (Ue : ue <= -5) by (unfold ue, Js.ulpExponent; lia).
  assert (Pm5 : (Js.pow2 ue <= 1 # 32)%Q).
  { change (1 # 32)%Q with (Js.pow2 (-5)). now apply pow2_le. }
  (* the quotient stays more than half a unit below the next integer *)
  assert (Gap : (Js.pow2 ue * (1 # 2) < inject_Z k + 1 - x)%Q).
  { destruct (Qlt_le_dec d 1) as [Small|Large].
    - assert (k = 0).
      { unfold k. apply floor_unique. change (inject_Z (0 + 1)) with 1%Q.
        change (inject_Z 0) with 0%Q. lra. }
      subst k. replace (Qfloor x) with 0 in * by congruence.
      change (inject_Z 0) with 0%Q. lra.
    - destruct (double_on_grid d D Pos) as (M & G & _).
      set (g := Js.ulpExponent d) in *.
      assert (Ld : Js.ilog2 d < 53) by (apply ilog2_lt; assumption).
      assert (Ld0 : 0 <= Js.ilog2 d).
      { apply ilog2_ge; [exact Pos|]. change (Js.pow2 0) with 1%Q. exact Large. }
      assert (Hg : g = Js.ilog2 d - 52) by (unfold g, Js.ulpExponent; lia).
      assert (Hg0 : g <= 0) by lia.
      pose proof (integer_on_grid (60 * (k + 1)) g Hg0) as GN.
      assert (Above : (d < inject_Z (60 * (k + 1)))%Q).
      { rewrite inject_Z_mult, inject_Z_plus.
        change (inject_Z 60) with 60%Q. change (inject_Z 1) with 1%Q. lra. }
      pose proof (grid_gap _ _ _ _ _ G GN Above) as Far.
      rewrite inject_Z_mult, inject_Z_plus in Far.
      change (inject_Z 60) with 60%Q in Far. change (inject_Z 1) with 1%Q in Far.
      (* the unit of the quotient is at most a 32nd of the unit of d *)
      destruct (ilog2_spec d Pos) as (_ & Ud).
      assert (Xlt : (x < Js.pow2 (Js.ilog2 d - 4))%Q).
      { assert (E5 : (Js.pow2 (Js.ilog2 d + 1)
                      == 32 * Js.pow2 (Js.ilog2 d - 4))%Q).
        { replace (Js.ilog2 d + 1) with (5 + (Js.ilog2 d - 4)) by lia.
          rewrite pow2_add. reflexivity. }
        pose proof (pow2_pos (Js.ilog2 d - 4)). lra. }
      assert (Lx' : Js.ilog2 x < Js.ilog2 d - 4) by (apply ilog2_lt; assumption).
      assert (Ue' : ue <= g - 5) by (unfold ue, Js.ulpExponent; lia).
      assert (P32 : (32 * Js.pow2 ue <= Js.pow2 g)%Q).
      { assert (E5 : (Js.pow2 g == 32 * Js.pow2 (g - 5))%Q).
        { replace g with (5 + (g - 5)) at 1 by lia.
          rewrite pow2_add. reflexivity. }
        pose proof (pow2_le ue (g - 5) Ue'). lra. }
      lra. }
  (* so the rounded quotient is between k and k + 1 *)
  set (s := 2 ^ (0 - ue)).
  pose proof (integer_on_grid k ue ltac:(lia)) as Gk. fold s in Gk.
  pose proof (integer_on_grid (k + 1) ue ltac:(lia)) as Gk1. fold s in Gk1.
  rewrite (inject_Z_plus k 1) in Gk1. change (inject_Z 1) with 1%Q in Gk1.
  set (Y := (x / Js.pow2 ue)%Q).
  assert (EY : (x == Y * Js.pow2 ue)%Q).
  { unfold Y. field. intros Z0. rewrite Z0 in Pue. discriminate Pue. }
  assert (B1 : k * s <= Js.roundHalfEven Y).
  { apply (roundHalfEven_bounds Y (k * s) ((k + 1) * s)).
    apply scaled_bounds. rewrite <- Gk, <- Gk1. split; lra. }
  assert (B2 : Js.roundHalfEven Y < (k + 1) * s).
  { apply roundHalfEven_below.
    apply Qmult_lt_r with (z := Js.pow2 ue); [exact Pue|].
    rewrite <- EY.
    setoid_replace ((inject_Z ((k + 1) * s) - (1 # 2)) * Js.pow2 ue)%Q
      with (inject_Z k + 1 - Js.pow2 ue * (1 # 2))%Q; [lra|].
    rewrite Gk1. ring. }
  set (R := Js.roundHalfEven Y) in *.
  assert (RQ1 : (inject_Z k <= inject_Z R * Js.pow2 ue)%Q).
  { rewrite Gk. apply Qmult_le_compat_r; [|lra].
    rewrite <- Zle_Qle. exact B1. }
  assert (RQ2 : (inject_Z R * Js.pow2 ue < inject_Z k + 1)%Q).
  { rewrite Gk1.
    apply Qmult_lt_compat_r; [exact Pue|].
    rewrite <- Zlt_Qlt. exact B2. }
  destruct (Qle_bool (Js.pow2 1024) (inject_Z R * Js.pow2 ue)) eqn:O.
  - exfalso. apply Qle_bool_iff in O.
    assert (Js.pow2 53 <= Js.pow2 1024)%Q by (apply pow2_le; lia).
    assert (Js.pow2 53 == 9007199254740992)%Q by reflexivity.
    lra.
  - eexists. split; [reflexivity|].
    apply floor_unique. rewrite inject_Z_plus. change (inject_Z 1) with 1%Q.
    split; lra.
Qed.

Lemma integer_isDouble (n : Z) : 0 <= n < 2 ^ 53 -> isDouble (inject_Z n).
Proof.
  intros H. exists n, 0. repeat split; try lia.
  change (Js.pow2 0) with 1%Q. ring.
Qed.

(** Below [2^53] an integer is the only integer that rounds to itself. *)
Lemma roundsTo_exact (w v : Z) :
  0 <= w < 2 ^ 53 -> Js.roundsTo w v = true -> w = v.
Proof.
  intros Hw R. unfold Js.roundsTo in R.
  destruct (round64_double (inject_Z w) (integer_isDouble w Hw)) as (y & E & Y).
  { change 0%Q with (inject_Z 0). rewrite <- Zle_Qle. lia. }
  rewrite E in R. apply Qeq_bool_iff in R. rewrite Y in R.
  unfold Qeq in R. simpl in R. lia.
Qed.

Lemma candidate_sound (j v w : Z) :
  0 < v -> Js.candidate j v = Some w ->
  Js.roundsTo w v = true /\ 0 <= w <= 2 * v.
Proof.
  intros Hv. unfold Js.candidate.
  set (p := 10 ^ j).
  assert (Hp : 0 <= p) by (apply Z.pow_nonneg; lia).
  destruct (p <=? v) eqn:G; [|discriminate].
  apply Z.leb_le in G.
  assert (B : 0 <= v / p * p <= v).
  { destruct (Z.eq_dec p 0) as [->|NZ]; [lia|].
    pose proof (Z.mul_div_le v p ltac:(lia)).
    pose proof (Z.div_pos v p ltac:(lia) ltac:(lia)). nia. }
  destruct (Js.roundsTo (v / p * p) v) eqn:Rlo,
           (Js.roundsTo (v / p * p + p) v) eqn:Rhi; try discriminate.
  - destruct (_ ?= _); [destruct (Z.even _)| |]; intros [= <-];
      (split; [assumption|lia]).
  - intros [= <-]. split; [assumption|lia].
  - intros [= <-]. split; [assumption|lia].
Qed.

Lemma shortest_sound (fuel : nat) (j v w : Z) :
  0 < v -> Js.shortest fuel j v = Some w ->
  Js.roundsTo w v = true /\ 0 <= w <= 2 * v.
Proof.
  intros Hv. revert j.
  induction fuel as [|fuel IH]; intros j; simpl;
    destruct (Js.candidate j v) eqn:C.
  - intros [= <-]. eapply candidate_sound; eauto.
  - discriminate.
  - intros [= <-]. eapply candidate_sound; eauto.
  - apply IH.
Qed.

(** Integers below [2^52] are printed digit for digit. *)
Lemma positiveToString_exact (v : Z) :
  0 < v < 2 ^ 52 -> Js.positiveToString v = Js.decimal v.
Proof.
  intros Hv. unfold Js.positiveToString.
  change (2 ^ 52) with 4503599627370496 in Hv.
  set (w := match Js.shortest _ _ v with Some w => w | None => v end).
  assert (E : w = v).
  { unfold w. destruct (Js.shortest _ _ v) as [u|] eqn:S; [|reflexivity].
    destruct (shortest_sound _ _ _ _ (proj1 Hv) S) as (R & B).
    apply roundsTo_exact; [|exact R].
    change (2 ^ 53) with 9007199254740992. lia. }
  rewrite E.
  assert (L : (v <? 10 ^ 21) = true).
  { apply Z.ltb_lt. change (10 ^ 21) with 1000000000000000000000. lia. }
  now rewrite L.
Qed.

Lemma toString_exact (n : Z) :
  0 <= n < 2 ^ 52 -> Js.toString (Js.Int n) = Js.decimal n.
Proof.
  intros H. destruct n as [|p|p]; [reflexivity| |lia].
  apply positiveToString_exact. lia.
Qed.

Lemma trunc_nonneg (x : Q) : (0 <= x)%Q -> Js.trunc x = Qfloor x.
Proof.
  destruct x as [n d]. unfold Qle, Js.trunc, Qfloor. simpl. intros H.
  apply Z.quot_div_nonneg; lia.
Qed.

Lemma div60_nonneg (d : Q) : (0 <= d)%Q -> (0 <= d / 60)%Q.
Proof.
  intros H. unfold Qdiv. apply Qmult_le_0_compat; [exact H|]. discriminate.
Qed.

(** The remainder of a non-negative double by 60 is exact. *)
Lemma rem60_left (d : Q) :
  (0 <= d)%Q ->
  Js.rem (Js.Fin d) 60 = Js.Fin (d - 60 * inject_Z (Qfloor (d / 60))).
Proof.
  intros H. unfold Js.rem. change (inject_Z (Zpos 60)) with 60%Q.
  now rewrite (trunc_nonneg (d / 60)) by (apply div60_nonneg, H).
Qed.

(** ** Decimal rendering *)

Lemma countChar_app c s1 s2 :
  countChar c (s1 ++ s2) = (countChar c s1 + countChar c s2)%nat.
Proof.
  induction s1 as [|a s1 IH]; simpl; [reflexivity|].
  rewrite IH. lia.
Qed.

Lemma colon_free_uint (u : Decimal.uint) :
  countChar ":" (NilEmpty.string_of_uint u) = O.
Proof. induction u; simpl; auto. Qed.

Lemma colon_free_decimal (n : Z) :
  countChar ":" (Js.decimal n) = O.
Proof.
  unfold Js.decimal, NilZero.string_of_int, NilZero.string_of_uint.
  destruct (Z.to_int n) as [u|u]; destruct u; simpl; auto using colon_free_uint.
Qed.

Lemma to_uint_head_nonzero (p : positive) (u : Decimal.uint) :
  Pos.to_uint p <> Decimal.D0 u.
Proof.
  intro E.
  pose proof (DecimalPos.Unsigned.to_of (Pos.to_uint p)) as N.
  rewrite DecimalPos.Unsigned.of_to in N. simpl in N.
  pose proof (DecimalPos.Unsigned.to_uint_nonzero p) as NZ.
  rewrite E in N.
  unfold Decimal.unorm in N.
  destruct (Decimal.nzhead (Decimal.D0 u)) eqn:H.
  1: apply NZ; rewrite E; exact N.
  all: rewrite <- H in N; symmetry in N; now apply DecimalFacts.nzhead_nonzero in N.
Qed.

Lemma decimal_no_leading_zero (n : Z) :
  0 <= n -> leadingZero (Js.decimal n) = false.
Proof.
  intros Hn. destruct n as [|p|p]; [reflexivity| |lia].
  unfold Js.decimal. simpl.
  pose proof (to_uint_head_nonzero p) as H.
  destruct (Pos.to_uint p); try reflexivity.
  now elim (H u).
Qed.

(** ** The time formatter on the doubles below 2^53 *)

(** What is left once the whole minutes are taken out lies in [[0, 60)]. *)
Lemma seconds_left_range (d : Q) :
  (0 <= d - 60 * inject_Z (Qfloor (d / 60)) < 60)%Q.
Proof.
  pose proof (Qfloor_le (d / 60)) as Hlo.
  pose proof (Qlt_floor (d / 60)) as Hhi.
  rewrite inject_Z_plus in Hhi. change (inject_Z 1) with 1%Q in Hhi.
  assert (E : (d == 60 * (d / 60))%Q) by (field; discriminate).
  set (m := inject_Z (Qfloor (d / 60))) in *.
  set (q := (d / 60)%Q) in *.
  split; lra.
Qed.

Lemma floor_range (x : Q) (k : Z) :
  (0 <= x < inject_Z k)%Q -> 0 <= Qfloor x < k.
Proof.
  intros [Hlo Hhi]. split.
  - change 0 with (Qfloor 0). now apply Qfloor_resp_le.
  - rewrite Zlt_Qlt. eapply Qle_lt_trans; [apply Qfloor_le|exact Hhi].
Qed.

Lemma pad_is_twoDigits (s : Z) :
  0 <= s < 60 ->
  (if Js.lt (Js.Int s) 10 then "0" else "") ++ Js.toString (Js.Int s)
  = twoDigits s.
Proof.
  intros H.
  assert (A : forall n : nat, (n < 60)%nat ->
            (if Js.lt (Js.Int (Z.of_nat n)) 10 then "0" else "")
            ++ Js.toString (Js.Int (Z.of_nat n))
            = twoDigits (Z.of_nat n)).
  { intros n Hn. do 60 (destruct n as [|n]; [vm_compute; reflexivity|]). lia. }
  rewrite <- (Z2Nat.id s) by lia. apply A. lia.
Qed.

(** The whole minutes of a duration below [2^53] seconds. *)
Lemma minutes_range (d : Q) :
  (0 <= d)%Q -> (d < Js.pow2 53)%Q -> 0 <= Qfloor (d / 60) < 2 ^ 52.
Proof.
  intros Hd Hbig.
  apply floor_range.
  assert (E : (d == 60 * (d / 60))%Q) by (field; discriminate).
  assert (P : (Js.pow2 53 == 9007199254740992)%Q) by reflexivity.
  change (inject_Z (2 ^ 52)) with 4503599627370496%Q.
  set (q := (d / 60)%Q) in *. split; lra.
Qed.

(** On the doubles of [[0, 2^53)] the formatter writes the whole minutes, a
    colon and the whole seconds that are left, on two digits. *)
Lemma formatTime_fields (d : Q) :
  isDouble d -> (0 <= d)%Q -> (d < Js.pow2 53)%Q ->
  formatTime d
  = Js.decimal (Qfloor (d / 60)) ++ ":"
    ++ twoDigits (Qfloor (d - 60 * inject_Z (Qfloor (d / 60)))).
Proof.
  intros D Hd Hbig. unfold formatTime.
  destruct (div60_whole d D Hd Hbig) as (y & E & F).
  rewrite E, (rem60_left d Hd). cbn [Js.floor]. rewrite F.
  rewrite (toString_exact (Qfloor (d / 60))) by now apply minutes_range.
  rewrite pad_is_twoDigits by (apply floor_range, seconds_left_range).
  reflexivity.
Qed.

(** ** Shape of a printed number *)

Lemma decimal_head (n : Z) :
  Js.decimal n = "0"
  \/ exists c rest, Js.decimal n = String c rest /\ c <> "0"%char.
Proof.
  destruct n as [|p|p]; [left; reflexivity| |].
  - right. unfold Js.decimal. simpl.
    pose proof (to_uint_head_nonzero p) as NZ.
    pose proof (DecimalPos.Unsigned.to_uint_nonnil p) as NN.
    destruct (Pos.to_uint p); try congruence;
      simpl; do 2 eexists; (split; [reflexivity|discriminate]).
  - right. unfold Js.decimal. simpl.
    do 2 eexists. split; [reflexivity|discriminate].
Qed.

Lemma decimal_twoZeros (n : Z) : twoZeros (Js.decimal n) = false.
Proof.
  destruct (decimal_head n) as [E|(c & rest & E & Hc)]; rewrite E;
    [reflexivity|].
  simpl. destruct c as [[] [] [] [] [] [] [] []]; try reflexivity.
  congruence.
Qed.

Lemma exponential_twoZeros (digits : string) :
  twoZeros (Js.exponential digits) = false.
Proof.
  unfold Js.exponential.
  destruct (Js.stripZeros digits) as [|c [|c' rest]]; [reflexivity| |];
    simpl; destruct c as [[] [] [] [] [] [] [] []]; reflexivity.
Qed.

Lemma positiveToString_twoZeros (v : Z) :
  twoZeros (Js.positiveToString v) = false.
Proof.
  unfold Js.positiveToString.
  destruct (_ <? _); [apply decimal_twoZeros|apply exponential_twoZeros].
Qed.

Lemma toString_twoZeros (a : Js.Integral) : twoZeros (Js.toString a) = false.
Proof.
  destruct a as [[|p|p]|[]|]; try reflexivity.
  cbn [Js.toString]. apply positiveToString_twoZeros.
Qed.

Lemma toString_zero_colon (a : Js.Integral) (rest : string) :
  Js.toString a ++ ":" ++ rest <> "00:00".
Proof.
  pose proof (toString_twoZeros a) as T.
  destruct (Js.toString a) as [|c [|c' s]]; simpl.
  - discriminate.
  - intros X. congruence.
  - intros [= -> -> _]. discriminate T.
Qed.

(** The formatter never produces the initial text: there is no way to get
    two digits before the colon out of a zero. *)
Lemma formatTime_never_initial (t : Js.Number) : formatTime t <> "00:00".
Proof. unfold formatTime. apply toString_zero_colon. Qed.

Lemma colon_free_twoDigits (s : Z) :
  0 <= s < 60 -> countChar ":" (twoDigits s) = O.
Proof.
  intros H.
  assert (A : forall n : nat, (n < 60)%nat ->
            countChar ":" (twoDigits (Z.of_nat n)) = O).
  { intros n Hn. do 60 (destruct n as [|n]; [vm_compute; reflexivity|]). lia. }
  rewrite <- (Z2Nat.id s) by lia. apply A. lia.
Qed.

Lemma formatTime_one_colon (d : Q) :
  isDouble d -> (0 <= d)%Q -> (d < Js.pow2 53)%Q ->
  countChar ":" (formatTime d) = 1%nat.
Proof.
  intros D Hd Hbig. rewrite (formatTime_fields d D Hd Hbig).
  rewrite !countChar_app, colon_free_decimal.
  rewrite colon_free_twoDigits by (apply floor_range, seconds_left_range).
  reflexivity.
Qed.

(** C1, as the code has it.  For every duration [d] that is a double with
    [0 <= d < 2^53], fractional or not, [formatTime d] is the decimal
    rendering of [floor(d/60)], a colon, and [floor(d mod 60)] written with
    exactly two digits: it agrees with [formatTime_spec].  The minutes
    field has no leading zero, the seconds field is a value below sixty on
    two digits, and the only colon is the one between them, so no hours
    field is produced.  In particular 65 gives ["1:05"], 3 gives ["0:03"]
    and 125.9 gives ["2:05"]. *)
Theorem formatTime_correct :
  (forall d : Q, isDouble d -> (0 <= d)%Q -> (d < Js.pow2 53)%Q ->
     let minutes := Qfloor (d / 60) in
     let seconds := Qfloor (d - 60 * inject_Z minutes) in
     formatTime d = formatTime_spec d
     /\ formatTime d = Js.decimal minutes ++ ":" ++ twoDigits seconds
     /\ 0 <= minutes
     /\ 0 <= seconds < 60
     /\ leadingZero (Js.decimal minutes) = false
     /\ countChar ":" (formatTime d) = 1%nat)
  /\ formatTime (Js.number 65) = "1:05"
  /\ formatTime (Js.number 3) = "0:03"
  /\ formatTime (Js.number 125.9) = "2:05".
Proof.
  split; [|repeat split; vm_compute; reflexivity].
  intros d D Hd Hbig minutes seconds.
  assert (Hm : 0 <= minutes < 2 ^ 52) by now apply minutes_range.
  assert (Hs : 0 <= seconds < 60) by (apply floor_range, seconds_left_range).
  pose proof (formatTime_fields d D Hd Hbig) as E.
  repeat split; try lia.
  - exact E.
  - exact E.
  - apply decimal_no_leading_zero. lia.
  - now apply formatTime_one_colon.
Qed.

(** At 659.5 seconds, half a second short of eleven minutes. *)
Lemma formatTime_correct_witness :
  formatTime 659.5 = formatTime_spec 659.5
  /\ countChar ":" (formatTime 659.5) = 1%nat.
Proof.
  assert (D : isDouble 659.5).
  { exists 1319, (-1). split; [reflexivity|].
    split; [split; discriminate|reflexivity]. }
  assert (H : (0 <= 659.5)%Q) by discriminate.
  assert (B : (659.5 < Js.pow2 53)%Q) by reflexivity.
  destruct (proj1 formatTime_correct 659.5%Q D H B) as (E & _ & _ & _ & _ & C).
  split; [exact E|exact C].
Defined.

(** C1, as stated, fails.  The double 67553994410557496 is 56 seconds past
    1125899906842624 minutes, but its quotient by 60 is not a double and
    rounds up to the next integer: the code prints 1125899906842625
    minutes. *)
Lemma formatTime_minutes_rounded_up :
  ~ (forall d : Q, isDouble d -> (0 <= d)%Q -> formatTime d = formatTime_spec d).
Proof.
  intros claim.
  assert (D : isDouble 67553994410557496).
  { exists 8444249301319687, 3. split; [reflexivity|].
    split; [split; discriminate|reflexivity]. }
  specialize (claim _ D ltac:(discriminate)).
  vm_compute in claim. discriminate claim.
Qed.

(** Beyond [2^53]: a quotient that rounds up, digits that are rounded to
    the shortest that denote the double, and exponent notation. *)
Example formatTime_large :
  formatTime 67553994410557496 = "1125899906842625:56"
  /\ formatTime_spec 67553994410557496 = "1125899906842624:56"
  /\ formatTime (Js.number 1e21) = "16666666666666666000:40"
  /\ formatTime (Js.number 6e22) = "1e+21:00".
Proof. repeat split; vm_compute; reflexivity. Qed.

(** A live stream has an infinite duration, and a media without metadata
    none at all. *)
Example formatTime_not_finite :
  formatTime (Js.Infinity false) = "Infinity:NaN"
  /\ formatTime Js.NaN = "NaN:NaN".
Proof. split; reflexivity. Qed.

(** ** Wiring is established by construction and kept by every event *)

Lemma samplePage_mounted :
  mount "video1" "../videos/Nice-1.mp4" sampleDocument = Some samplePage.
Proof. vm_compute. reflexivity. Qed.

Lemma mount_wired containerId videoUrl doc w :
  mount containerId videoUrl doc = Some w -> wired (widget w).
Proof.
  unfold mount, constructor, validateInputs, when, bind, getElementById.
  destruct (lookupId containerId (elements doc)); [|discriminate].
  destruct videoUrl; [simpl; discriminate|].
  cbn -[styleText].
  intros [= <-]. repeat split.
Qed.

Lemma samplePage_wired : wired (widget samplePage).
Proof. exact (mount_wired _ _ _ _ samplePage_mounted). Qed.

(** Case analysis on the sum that [skipTime] hands to the engine. *)
Ltac by_sum :=
  unfold react, on_widget, remembering, skipTime;
  repeat match goal with
         | |- context [match Js.add ?a ?b with _ => _ end] =>
             progress simpl || destruct (Js.add a b)
         end.

(** Case analysis on the three flags that the handlers branch on. *)
Ltac by_flags p :=
  let v := fresh "v" in
  let pa := fresh "pa" in
  let mu := fresh "mu" in
  let seeking := fresh "seeking" in
  destruct p as [? ? v ? ? ? ? ? ? ? ? ? ? seeking ?];
  destruct v as [? ? ? ? ? pa mu ? ?];
  destruct pa, mu, seeking; by_sum.

Section Dispatch.

Context {engine : MediaEngine}.

Lemma step_react (e : Event) (w : Page) :
  wired (widget w) -> step e w = react e w.
Proof.
  destruct w as [doc p].
  intros (Hv & Hp & Hvol & Hpp & Hsb & Hsf & Hm & Hf). simpl in *.
  destruct e as [b| | | | | |]; [destruct b|..];
    unfold step, fire, on_widget, listenersOf; simpl;
    rewrite ?Hv, ?Hp, ?Hvol, ?Hpp, ?Hsb, ?Hsf, ?Hm, ?Hf; reflexivity.
Qed.

Lemma react_wired (e : Event) (w : Page) :
  wired (widget w) -> wired (widget (react e w)).
Proof.
  destruct w as [doc p]. unfold wired. simpl.
  destruct e as [b| | | | | |]; [destruct b|..]; simpl; try tauto;
    unfold togglePlay, toggleMute, updateProgress; by_sum;
    repeat match goal with |- context [if ?c then _ else _] => destruct c end;
    simpl; tauto.
Qed.

Lemma step_wired (e : Event) (w : Page) :
  wired (widget w) -> wired (widget (step e w)).
Proof. intros H. rewrite step_react by exact H. now apply react_wired. Qed.

Lemma run_wired (es : list Event) (w : Page) :
  wired (widget w) -> wired (widget (run es w)).
Proof.
  revert w. induction es as [|e es IH]; intros w H; [exact H|].
  apply IH, step_wired, H.
Qed.

End Dispatch.

(** ** The mute toggle *)

(** C2.  From any state whose muted flag is clear, whatever the engine
    volume [v], the mute toggle followed by the mute toggle brings the
    engine volume back to exactly [v] and leaves the muted flag clear.  In
    between the flag is set and the engine volume is 0. *)
Theorem toggleMute_roundtrip (p : CustomVideoPlayer) :
  Video.muted (videoElement p) = false ->
  let silenced := toggleMute p in
  let restored := toggleMute silenced in
  Video.muted (videoElement silenced) = true
  /\ Video.volume (videoElement silenced) = 0%Q
  /\ Video.volume (videoElement restored) = Video.volume (videoElement p)
  /\ Video.muted (videoElement restored) = false.
Proof.
  intros H. unfold toggleMute. rewrite H. simpl. repeat split.
Qed.

(** With the volume slider dragged to 0.4 beforehand. *)
Lemma toggleMute_roundtrip_witness :
  let p := widget (@step clampingEngine (VolumeInput 0.4) samplePage) in
  (Video.volume (videoElement (toggleMute (toggleMute p))) = 0.4)%Q
  /\ Video.muted (videoElement (toggleMute (toggleMute p))) = false.
Proof.
  intros p.
  assert (H : Video.muted (videoElement p) = false) by (vm_compute; reflexivity).
  destruct (toggleMute_roundtrip p H) as (_ & _ & V & M).
  split; [rewrite V; vm_compute; reflexivity|exact M].
Defined.

(** The mute branch stores the volume, sets the flag, silences the engine,
    zeroes the slider and shows the crossed-out loudspeaker. *)
Lemma toggleMute_mute_branch (p : CustomVideoPlayer) :
  Video.muted (videoElement p) = false ->
  toggleMute p =
  set_muteBtn (Button.set_icon_className "fa-solid fa-volume-xmark" (muteBtn p))
    (set_volumeBar (Range.set_value 0 (volumeBar p))
       (set_videoElement
          (Video.set_volume 0 (Video.set_muted true (videoElement p)))
          (set_previousVolume (Video.volume (videoElement p)) p))).
Proof. intros H. unfold toggleMute. rewrite H. reflexivity. Qed.

(** The glyphs that the other icon classes of the widget name. *)
Lemma icons_name_their_glyphs :
  namesGlyph "play" (Button.icon_className (playPauseBtn (widget samplePage))) = true
  /\ namesGlyph "backward" (Button.icon_className (skipBackwardBtn (widget samplePage))) = true
  /\ namesGlyph "forward" (Button.icon_className (skipForwardBtn (widget samplePage))) = true
  /\ namesGlyph "volume-up" (Button.icon_className (muteBtn (widget samplePage))) = true
  /\ namesGlyph "expand" (Button.icon_className (fullscreenBtn (widget samplePage))) = true
  /\ namesGlyph "pause"
       (Button.icon_className (playPauseBtn (togglePlay (widget samplePage)))) = true.
Proof. vm_compute. repeat split. Qed.

(** C5, as the code has it.  Invoked in an unmuted state, the mute toggle
    saves the engine volume into the remembered volume, sets the muted
    flag, sets the engine volume to 0, sets the volume slider to 0, and
    sets the icon class of the mute button to ['fa-solid fa-volume-xmark'],
    which names the glyph [volume-xmark]. *)
Theorem toggleMute_mutes (p : CustomVideoPlayer) :
  Video.muted (videoElement p) = false ->
  let p' := toggleMute p in
  previousVolume p' = Video.volume (videoElement p)
  /\ Video.muted (videoElement p') = true
  /\ Video.volume (videoElement p') = 0%Q
  /\ Range.value (volumeBar p') = 0%Q
  /\ Button.icon_className (muteBtn p') = "fa-solid fa-volume-xmark"
  /\ namesGlyph "volume-xmark" (Button.icon_className (muteBtn p')) = true.
Proof.
  intros H p'. subst p'. rewrite toggleMute_mute_branch by exact H.
  repeat split.
Qed.

Lemma toggleMute_mutes_witness :
  Button.icon_className (muteBtn (toggleMute (widget samplePage)))
  = "fa-solid fa-volume-xmark".
Proof.
  assert (H : Video.muted (videoElement (widget samplePage)) = false)
    by (vm_compute; reflexivity).
  exact (proj1 (proj2 (proj2 (proj2 (proj2 (toggleMute_mutes (widget samplePage) H)))))).
Defined.

(** C5, as stated, fails: the icon class that the mute branch writes names
    no glyph called [volume-muted]. *)
Lemma toggleMute_icon_not_volume_muted :
  ~ (forall p : CustomVideoPlayer,
       Video.muted (videoElement p) = false ->
       let p' := toggleMute p in
       previousVolume p' = Video.volume (videoElement p)
       /\ Video.muted (videoElement p') = true
       /\ Video.volume (videoElement p') = 0%Q
       /\ Range.value (volumeBar p') = 0%Q
       /\ namesGlyph "volume-muted" (Button.icon_className (muteBtn p')) = true).
Proof.
  intros claim.
  assert (H : Video.muted (videoElement (widget samplePage)) = false)
    by (vm_compute; reflexivity).
  destruct (claim (widget samplePage) H) as (_ & _ & _ & _ & icon).
  vm_compute in icon. discriminate icon.
Qed.

(** ** The play/pause toggle *)

(** C8, as the code has it.  From any state in which the engine is paused,
    two play/pause toggles leave the engine paused and the play button
    with the class ['fa-solid fa-play'].  When the button showed that class
    to begin with, as it does after construction, the class is restored and
    the two toggles give back the very state they started from. *)
Theorem togglePlay_twice (p : CustomVideoPlayer) :
  Video.paused (videoElement p) = true ->
  let p' := togglePlay (togglePlay p) in
  Video.paused (videoElement (togglePlay p)) = false
  /\ Button.icon_className (playPauseBtn (togglePlay p)) = "fa-solid fa-pause"
  /\ Video.paused (videoElement p') = true
  /\ Button.icon_className (playPauseBtn p') = "fa-solid fa-play"
  /\ (Button.icon_className (playPauseBtn p) = "fa-solid fa-play" -> p' = p).
Proof.
  intros H. unfold togglePlay. rewrite H. simpl. repeat split.
  intros Hicon.
  destruct p as [cid url v cc pp pb vb fb ct dd mb sb sf seeking pv].
  destruct v as [src cl sw t d pa mu vol ls]. destruct pp as [icon pcl pls].
  simpl in *. subst. reflexivity.
Qed.

Lemma togglePlay_twice_witness :
  togglePlay (togglePlay (widget samplePage)) = widget samplePage.
Proof.
  assert (H : Video.paused (videoElement (widget samplePage)) = true)
    by (vm_compute; reflexivity).
  apply (proj2 (proj2 (proj2 (proj2 (togglePlay_twice (widget samplePage) H))))).
  vm_compute. reflexivity.
Defined.

(** C8, as stated, fails.  When playback reaches the end the engine pauses
    by itself and no listener resets the icon: the engine is paused, the
    button shows ['fa-solid fa-pause'], and two toggles leave it with
    ['fa-solid fa-play']. *)
Lemma togglePlay_twice_not_involutive :
  ~ (forall p : CustomVideoPlayer,
       Video.paused (videoElement p) = true ->
       let p' := togglePlay (togglePlay p) in
       Video.paused (videoElement p') = true
       /\ Button.icon_className (playPauseBtn p')
          = Button.icon_className (playPauseBtn p)).
Proof.
  intros claim.
  pose (p := widget (@run clampingEngine [Click ThePlayPauseBtn; Ended] samplePage)).
  assert (H : Video.paused (videoElement p) = true) by (vm_compute; reflexivity).
  destruct (claim p H) as (_ & icon).
  vm_compute in icon. discriminate icon.
Qed.

(** ** Skipping *)

Section Skipping.

Context {engine : MediaEngine}.

Lemma skipTime_finite (seconds sum : Q) (p : CustomVideoPlayer) :
  Js.add (positionOf p) seconds = Js.Fin sum ->
  skipTime seconds p
  = set_videoElement
      (Video.set_currentTime (seek (videoElement p) sum) (videoElement p)) p.
Proof.
  intros E. unfold skipTime. fold (positionOf p). rewrite E. reflexivity.
Qed.

(** Five seconds back from a double in [[5, 2^53)] is a double. *)
Lemma back_isDouble (t : Q) :
  isDouble t -> (5 <= t)%Q -> (t < Js.pow2 53)%Q -> isDouble (t + -5).
Proof.
  intros (m & e & Hm & He & E) Lo Hi.
  pose proof (pow2_pos e) as P.
  assert (P53 : (Js.pow2 53 == 9007199254740992)%Q) by reflexivity.
  assert (Mpos : 0 < m).
  { rewrite Zlt_Qlt. change (inject_Z 0) with 0%Q.
    destruct (Qlt_le_dec 0 (inject_Z m)) as [G|G]; [exact G|].
    exfalso. nra. }
  destruct (Z_le_gt_dec 0 e) as [Epos|Eneg].
  - (* an integer below 2^53 *)
    rewrite (pow2_int e Epos) in E. rewrite <- inject_Z_mult in E.
    set (n := m * 2 ^ e) in *.
    assert (N1 : 5 <= n).
    { rewrite Zle_Qle. change (inject_Z 5) with 5%Q. now rewrite <- E. }
    assert (N2 : n < 2 ^ 53).
    { rewrite Zlt_Qlt. change (inject_Z (2 ^ 53)) with 9007199254740992%Q.
      rewrite <- E. lra. }
    exists (n - 5), 0. split; [lia|]. split; [lia|].
    change (Js.pow2 0) with 1%Q. rewrite E.
    replace (n - 5) with (n + -5) by lia.
    rewrite inject_Z_plus. change (inject_Z (-5)) with (-5)%Q. ring.
  - exists (m - 5 * 2 ^ (0 - e)), e.
    pose proof (integer_on_grid 5 e ltac:(lia)) as G5.
    change (inject_Z 5) with 5%Q in G5.
    assert (S : 0 < 2 ^ (0 - e)) by (apply Z.pow_pos_nonneg; lia).
    assert (M5 : 5 * 2 ^ (0 - e) <= m).
    { rewrite Zle_Qle.
      apply Qmult_le_r with (z := Js.pow2 e); [exact P|].
      rewrite <- G5, <- E. exact Lo. }
    split; [lia|]. split; [lia|].
    unfold Z.sub at 1. rewrite inject_Z_plus, inject_Z_opp.
    rewrite E. setoid_replace (-5)%Q with (- (5))%Q by reflexivity.
    rewrite G5 at 1. ring.
Qed.

(** C7, as the code has it.  [skipTime] hands the engine the double sum of
    the current position and the delta, as it is: the position afterwards
    is whatever the engine makes of that sum, nothing else of the player
    changes, and a sum that is not finite is refused with nothing changed.
    From a position [t] that is a double with [5 <= t < 2^53], when the
    engine adopts both requested positions without clamping, [skipTime (-5)]
    moves to [t - 5] and [skipTime 5] after it ends at [t]. *)
Theorem skipTime_net_zero (p : CustomVideoPlayer) :
  (forall seconds : Q,
     match Js.add (positionOf p) seconds with
     | Js.Fin sum =>
         positionOf (skipTime seconds p) = seek (videoElement p) sum
         /\ skipTime seconds p
            = set_videoElement
                (Video.set_currentTime (positionOf (skipTime seconds p))
                                       (videoElement p)) p
     | _ => skipTime seconds p = p
     end)
  /\ (let back := skipTime (-5) p in
      let forth := skipTime 5 back in
      isDouble (positionOf p) ->
      (5 <= positionOf p)%Q -> (positionOf p < Js.pow2 53)%Q ->
      skipHonoured (-5) p ->
      skipHonoured 5 back ->
      (positionOf back == positionOf p - 5)%Q
      /\ (positionOf forth == positionOf p)%Q).
Proof.
  split.
  - intros seconds. unfold skipTime. fold (positionOf p).
    destruct (Js.add (positionOf p) seconds); [|reflexivity|reflexivity].
    split; reflexivity.
  - cbv zeta. intros D Lo Hi H1 H2.
    set (t := positionOf p) in *.
    destruct (round64_double (t + -5) (back_isDouble t D Lo Hi) ltac:(lra))
      as (x1 & E1 & X1).
    unfold skipHonoured in H1. fold t in H1.
    unfold Js.add in H1 at 1. rewrite E1 in H1. unfold honoured in H1.
    assert (B : positionOf (skipTime (-5) p) = seek (videoElement p) x1).
    { unfold skipTime. fold (positionOf p). fold t.
      unfold Js.add. rewrite E1. reflexivity. }
    assert (Bq : (positionOf (skipTime (-5) p) == t - 5)%Q).
    { rewrite B, H1, X1. ring. }
    split; [exact Bq|].
    set (back := skipTime (-5) p) in *.
    assert (D2 : isDouble (positionOf back + 5)).
    { destruct D as (m & e & Hm & He & E). exists m, e.
      split; [exact Hm|]. split; [exact He|]. rewrite Bq, <- E. ring. }
    destruct (round64_double (positionOf back + 5) D2 ltac:(lra))
      as (x2 & E2 & X2).
    unfold skipHonoured in H2. unfold Js.add in H2 at 1.
    rewrite E2 in H2. unfold honoured in H2.
    assert (F : positionOf (skipTime 5 back) = seek (videoElement back) x2).
    { unfold skipTime. fold (positionOf back).
      unfold Js.add. rewrite E2. reflexivity. }
    rewrite F, H2, X2, Bq. ring.
Qed.

End Skipping.

(** On the clamping engine, from position 10 of a media of 100 seconds. *)
Lemma skipTime_net_zero_witness :
  let p := widget (@run clampingEngine [LoadedMetadata 100; TimeUpdate 10] samplePage) in
  (positionOf (@skipTime clampingEngine (-5) p) == positionOf p - 5)%Q
  /\ (positionOf (@skipTime clampingEngine 5 (@skipTime clampingEngine (-5) p))
      == positionOf p)%Q.
Proof.
  intros p.
  apply (proj2 (@skipTime_net_zero clampingEngine p)).
  - exists 10, 0. vm_compute. repeat split; discriminate.
  - vm_compute. discriminate.
  - vm_compute. reflexivity.
  - vm_compute. reflexivity.
  - vm_compute. reflexivity.
Defined.

(** C7, as stated, fails.  Above [2^53] the doubles are two apart.  From
    position 9007199254740998 of a media of 10^16 seconds, which the
    clamping engine leaves alone, the sum with -5 is rounded to
    9007199254740992 and the sum of that with 5 to 9007199254740996: the
    round trip ends two seconds short. *)
Lemma skipTime_round_trip_rounds :
  ~ (forall p : CustomVideoPlayer,
       isDouble (positionOf p) -> (5 <= positionOf p)%Q ->
       @skipHonoured clampingEngine (-5) p ->
       @skipHonoured clampingEngine 5 (@skipTime clampingEngine (-5) p) ->
       (positionOf (@skipTime clampingEngine 5 (@skipTime clampingEngine (-5) p))
        == positionOf p)%Q).
Proof.
  intros claim.
  set (p := widget (@run clampingEngine
                      [LoadedMetadata 10000000000000000;
                       TimeUpdate 9007199254740998] samplePage)).
  assert (D : isDouble (positionOf p)).
  { exists 4503599627370499, 1. vm_compute. repeat split; discriminate. }
  assert (L : (5 <= positionOf p)%Q) by (vm_compute; discriminate).
  assert (H1 : @skipHonoured clampingEngine (-5) p) by (vm_compute; reflexivity).
  assert (H2 : @skipHonoured clampingEngine 5 (@skipTime clampingEngine (-5) p))
    by (vm_compute; reflexivity).
  specialize (claim p D L H1 H2).
  vm_compute in claim. discriminate claim.
Qed.

(** The two sums of that round trip. *)
Example skipTime_rounded_sums :
  Js.add 9007199254740998 (-5) = Js.Fin 9007199254740992
  /\ Js.add 9007199254740992 5 = Js.Fin 9007199254740996.
Proof. split; vm_compute; reflexivity. Qed.

(** ** The sliders and the progress display *)

Section Sliders.

Context {engine : MediaEngine}.

(** C9.  Dragging the volume slider to [v] sets the engine volume to the
    slider value [v] and changes nothing else: the page afterwards is the
    page before with the slider at [v] and the engine volume at [v].  The
    muted flag keeps its value, so a set flag stays set; the remembered
    volume, the seeking flag and every icon class are untouched. *)
Theorem volume_drag_frame (w : Page) (v : Q) :
  wired (widget w) ->
  let w' := step (VolumeInput v) w in
  w' = mkPage (document w)
         (set_videoElement (Video.set_volume v (engineOf w))
            (set_volumeBar (Range.set_value v (volumeBar (widget w))) (widget w)))
  /\ Video.volume (engineOf w') = Range.value (volumeBar (widget w'))
  /\ Video.volume (engineOf w') = v
  /\ Video.muted (engineOf w') = Video.muted (engineOf w)
  /\ (Video.muted (engineOf w) = true -> Video.muted (engineOf w') = true)
  /\ previousVolume (widget w') = previousVolume (widget w)
  /\ isSeeking (widget w') = isSeeking (widget w)
  /\ Button.icon_className (muteBtn (widget w'))
     = Button.icon_className (muteBtn (widget w))
  /\ Button.icon_className (playPauseBtn (widget w'))
     = Button.icon_className (playPauseBtn (widget w))
  /\ Button.icon_className (skipBackwardBtn (widget w'))
     = Button.icon_className (skipBackwardBtn (widget w))
  /\ Button.icon_className (skipForwardBtn (widget w'))
     = Button.icon_className (skipForwardBtn (widget w))
  /\ Button.icon_className (fullscreenBtn (widget w'))
     = Button.icon_className (fullscreenBtn (widget w)).
Proof.
  intros H w'. subst w'. rewrite step_react by exact H.
  destruct w as [doc p]. simpl. repeat split. auto.
Qed.

(** One [timeupdate] while the seeking flag is set changes nothing but the
    engine position it reports. *)
Lemma timeupdate_while_seeking (w : Page) (t : Q) :
  wired (widget w) ->
  isSeeking (widget w) = true ->
  step (TimeUpdate t) w
  = on_widget (fun p => set_videoElement (Video.set_currentTime t (videoElement p)) p) w.
Proof.
  intros H S. rewrite step_react by exact H.
  destruct w as [doc p]. simpl in *. unfold on_widget, updateProgress. simpl.
  now rewrite S.
Qed.

Lemma timeupdates_while_seeking (ts : list Q) (w : Page) :
  wired (widget w) ->
  isSeeking (widget w) = true ->
  let w' := run (map TimeUpdate ts) w in
  wired (widget w')
  /\ isSeeking (widget w') = true
  /\ progressBar (widget w') = progressBar (widget w)
  /\ currentTimeDisplay (widget w') = currentTimeDisplay (widget w).
Proof.
  revert w. induction ts as [|t ts IH]; intros w H S; [simpl; auto|].
  change (run (map TimeUpdate (t :: ts)) w)
    with (run (map TimeUpdate ts) (step (TimeUpdate t) w)).
  destruct (IH (step (TimeUpdate t) w)) as (W & S' & P & C).
  - now apply step_wired.
  - rewrite timeupdate_while_seeking by assumption. exact S.
  - cbv zeta. split; [exact W|]. split; [exact S'|]. split.
    + rewrite P, timeupdate_while_seeking by assumption. reflexivity.
    + rewrite C, timeupdate_while_seeking by assumption. reflexivity.
Qed.

(** C4.  On a wired widget whose seeking flag is set, any number of
    [timeupdate] events, whatever positions the engine reports, leave the
    value of the seek control and the elapsed-time text as they were.
    When the flag is clear a [timeupdate] writes the reported position to
    the seek control and its formatted form to the elapsed-time text. *)
Theorem progress_updates_gated (w : Page) :
  wired (widget w) ->
  (isSeeking (widget w) = true ->
   forall ts : list Q,
     let w' := run (map TimeUpdate ts) w in
     Range.value (progressBar (widget w')) = Range.value (progressBar (widget w))
     /\ elapsedText w' = elapsedText w)
  /\ (isSeeking (widget w) = false ->
      forall t : Q,
        let w' := step (TimeUpdate t) w in
        Range.value (progressBar (widget w')) = t
        /\ elapsedText w' = formatTime t).
Proof.
  intros H. split.
  - intros S ts.
    destruct (timeupdates_while_seeking ts w H S) as (_ & _ & P & C).
    unfold elapsedText. cbv zeta. now rewrite P, C.
  - intros S t. cbv zeta. rewrite step_react by exact H.
    destruct w as [doc p]. simpl in *.
    unfold elapsedText, updateProgress. simpl. rewrite S. simpl. split; reflexivity.
Qed.

End Sliders.

(** The user drags the volume slider of a muted widget to one half. *)
Lemma volume_drag_frame_witness :
  let w := @run clampingEngine [Click TheMuteBtn] samplePage in
  let w' := @step clampingEngine (VolumeInput 0.5) w in
  Video.muted (engineOf w') = true /\ (Video.volume (engineOf w') = 0.5)%Q.
Proof.
  intros w w'.
  assert (H : wired (widget w)) by (vm_compute; repeat split).
  destruct (@volume_drag_frame clampingEngine w 0.5%Q H)
    as (_ & _ & V & _ & M & _).
  split; [apply M; vm_compute; reflexivity|exact V].
Defined.

(** The user holds the seek slider at 30 while playback reports 31, 32
    and 33. *)
Lemma progress_updates_gated_witness :
  let w := @run clampingEngine [LoadedMetadata 100; ProgressInput 30] samplePage in
  let w' := @run clampingEngine (map TimeUpdate [31; 32; 33]%Q) w in
  (Range.value (progressBar (widget w')) = 30)%Q /\ elapsedText w' = "00:00".
Proof.
  intros w w'.
  assert (H : wired (widget w)) by (vm_compute; repeat split).
  assert (S : isSeeking (widget w) = true) by (vm_compute; reflexivity).
  destruct (proj1 (@progress_updates_gated clampingEngine w H) S [31; 32; 33]%Q)
    as (P & C).
  subst w'. split; [rewrite P|rewrite C]; vm_compute; reflexivity.
Defined.

(** ** Construction *)

Lemma validateInputs_ok containerId videoUrl doc children :
  lookupId containerId (elements doc) = Some children ->
  videoUrl <> "" ->
  validateInputs containerId videoUrl doc = (doc, Normal tt).
Proof.
  intros L U. unfold validateInputs, when, bind, getElementById. rewrite L.
  destruct videoUrl; [congruence|reflexivity].
Qed.

(** A construction on valid inputs goes through, and it does mutate the
    document: eighteen elements are created and one style block lands in
    the head. *)
Lemma constructor_succeeds containerId videoUrl doc :
  lookupId containerId (elements doc) <> None ->
  videoUrl <> "" ->
  exists doc' p,
    constructor containerId videoUrl doc = (doc', Normal p)
    /\ created doc' = (created doc + 18)%nat
    /\ head doc' = (head doc ++ [StyleNode (styleText containerId)])%list.
Proof.
  intros L U.
  destruct (lookupId containerId (elements doc)) as [children|] eqn:E; [|congruence].
  unfold constructor, bind at 1.
  rewrite (validateInputs_ok _ _ _ _ E U).
  cbn -[styleText Nat.add].
  do 2 eexists. split; [reflexivity|]. split; [cbn; lia|reflexivity].
Qed.

(** C3.  When the mount-point identifier resolves to no element the
    construction throws the invalid-container error, and when it resolves
    but the locator is empty it throws the URL-required error (the
    container is checked first).  Either way the document that the throw
    leaves behind is the document it started from: nothing was created,
    nothing appended, no style block injected.  An empty locator never
    gets past validation, and a construction that throws at all has thrown
    for one of these two reasons and left the document alone. *)
Theorem constructor_fails_before_mutation
    (containerId videoUrl : string) (doc : Document) :
  (lookupId containerId (elements doc) = None ->
     constructor containerId videoUrl doc
     = (doc, Throw (mkError ("Invalid container ID: " ++ containerId))))
  /\ (lookupId containerId (elements doc) <> None -> videoUrl = "" ->
     constructor containerId videoUrl doc
     = (doc, Throw (mkError "Video URL is required.")))
  /\ (videoUrl = "" ->
     exists e, constructor containerId videoUrl doc = (doc, Throw e))
  /\ (forall doc' e,
     constructor containerId videoUrl doc = (doc', Throw e) ->
     doc' = doc
     /\ (lookupId containerId (elements doc) = None \/ videoUrl = "")).
Proof.
  assert (A : lookupId containerId (elements doc) = None ->
              constructor containerId videoUrl doc
              = (doc, Throw (mkError ("Invalid container ID: " ++ containerId)))).
  { intros L. unfold constructor, validateInputs, when, bind, getElementById.
    rewrite L. reflexivity. }
  assert (B : lookupId containerId (elements doc) <> None -> videoUrl = "" ->
              constructor containerId videoUrl doc
              = (doc, Throw (mkError "Video URL is required."))).
  { intros L ->. unfold constructor, validateInputs, when, bind, getElementById.
    destruct (lookupId containerId (elements doc)); [reflexivity|congruence]. }
  split; [exact A|]. split; [exact B|]. split.
  - intros U.
    destruct (lookupId containerId (elements doc)) eqn:L.
    + eexists. apply B; [congruence|exact U].
    + eexists. apply A. reflexivity.
  - intros doc' e R.
    destruct (lookupId containerId (elements doc)) as [children|] eqn:L.
    + destruct (string_dec videoUrl "") as [U|U].
      * rewrite B in R by congruence. injection R as <- _. auto.
      * destruct (constructor_succeeds containerId videoUrl doc) as (d & p & E & _);
          [congruence|exact U|]. rewrite E in R. discriminate R.
    + rewrite A in R by reflexivity. injection R as <- _. auto.
Qed.

(** No mount point [player] in the sample document; then an empty locator
    on the mount point [video2]. *)
Lemma constructor_fails_before_mutation_witness :
  constructor "player" "../videos/Nice-1.mp4" sampleDocument
  = (sampleDocument, Throw (mkError "Invalid container ID: player"))
  /\ constructor "video2" "" sampleDocument
     = (sampleDocument, Throw (mkError "Video URL is required.")).
Proof.
  split.
  - apply (proj1 (constructor_fails_before_mutation
                    "player" "../videos/Nice-1.mp4" sampleDocument)).
    reflexivity.
  - apply (proj1 (proj2 (constructor_fails_before_mutation
                           "video2" "" sampleDocument))).
    + discriminate.
    + reflexivity.
Defined.

(** ** The remembered volume *)

Lemma mount_previousVolume containerId videoUrl doc w :
  mount containerId videoUrl doc = Some w -> previousVolume (widget w) = 1%Q.
Proof.
  unfold mount, constructor, validateInputs, when, bind, getElementById.
  destruct (lookupId containerId (elements doc)); [|discriminate].
  destruct videoUrl; [simpl; discriminate|].
  cbn -[styleText].
  intros [= <-]. reflexivity.
Qed.

Section Remembered.

Context {engine : MediaEngine}.

Lemma remembering_wired (x : Q) (w : Page) :
  wired (widget w) -> wired (widget (remembering x w)).
Proof. destruct w as [doc p]. exact (fun H => H). Qed.

Lemma step_previousVolume (e : Event) (w : Page) :
  wired (widget w) ->
  previousVolume (widget (step e w))
  = if takesMuteBranch e w then Video.volume (engineOf w)
    else previousVolume (widget w).
Proof.
  intros H. rewrite step_react by exact H.
  destruct w as [doc p]. unfold takesMuteBranch, engineOf.
  destruct e as [b| | | | | |]; [destruct b|..]; by_flags p; reflexivity.
Qed.

Lemma step_ignores_previousVolume (e : Event) (w : Page) (x y : Q) :
  wired (widget w) ->
  takesUnmuteBranch e w = false ->
  remembering y (step e (remembering x w)) = remembering y (step e w).
Proof.
  intros H U.
  rewrite !step_react by (try apply remembering_wired; exact H).
  destruct w as [doc p]. unfold takesUnmuteBranch, engineOf in U.
  destruct e as [b| | | | | |]; [destruct b|..]; by_flags p;
    try discriminate U; reflexivity.
Qed.

Lemma unmute_reads_previousVolume (w : Page) :
  wired (widget w) ->
  Video.muted (engineOf w) = true ->
  let w' := step (Click TheMuteBtn) w in
  Video.volume (engineOf w') = previousVolume (widget w)
  /\ Range.value (volumeBar (widget w')) = previousVolume (widget w).
Proof.
  intros H M. cbv zeta. rewrite step_react by exact H.
  destruct w as [doc p]. unfold engineOf in *. simpl in *.
  unfold toggleMute. rewrite M. simpl. split; reflexivity.
Qed.

End Remembered.

(** C6.  The remembered volume is 1 after construction.  An event changes
    it only by taking the mute branch of the mute toggle, which stores the
    engine volume in it; every other event leaves it as it was.  Only the
    unmute branch reads it, copying it to the engine volume and the volume
    slider: for every other event the page afterwards does not depend on
    it.  It is a plain field of the player, not a property of a DOM object,
    so what the page shows is the same whatever it holds. *)
Theorem previousVolume_protected :
  (forall containerId videoUrl doc w,
     mount containerId videoUrl doc = Some w -> previousVolume (widget w) = 1%Q)
  /\ (forall (engine : MediaEngine) (e : Event) (w : Page),
        wired (widget w) ->
        previousVolume (widget (step e w))
        = if takesMuteBranch e w then Video.volume (engineOf w)
          else previousVolume (widget w))
  /\ (forall (engine : MediaEngine) (e : Event) (w : Page) (x y : Q),
        wired (widget w) ->
        takesUnmuteBranch e w = false ->
        remembering y (step e (remembering x w)) = remembering y (step e w))
  /\ (forall (engine : MediaEngine) (w : Page),
        wired (widget w) ->
        Video.muted (engineOf w) = true ->
        let w' := step (Click TheMuteBtn) w in
        Video.volume (engineOf w') = previousVolume (widget w)
        /\ Range.value (volumeBar (widget w')) = previousVolume (widget w))
  /\ (forall (p : CustomVideoPlayer) (x : Q),
        rendered (set_previousVolume x p) = rendered p).
Proof.
  split; [exact mount_previousVolume|].
  split; [exact @step_previousVolume|].
  split; [exact @step_ignores_previousVolume|].
  split; [exact @unmute_reads_previousVolume|].
  reflexivity.
Qed.

(** On the sample page: a click on play/pause leaves the remembered volume
    at 1; after a drag of the volume slider to 0.4 a click on mute stores
    0.4. *)
Lemma previousVolume_protected_witness :
  (previousVolume (widget (@step clampingEngine (Click ThePlayPauseBtn) samplePage))
   = 1)%Q
  /\ (previousVolume
        (widget (@step clampingEngine (Click TheMuteBtn)
                   (@step clampingEngine (VolumeInput 0.4) samplePage)))
      = 0.4)%Q.
Proof.
  destruct previousVolume_protected as (_ & Written & _).
  split.
  - rewrite (Written clampingEngine (Click ThePlayPauseBtn) samplePage)
      by exact samplePage_wired.
    vm_compute. reflexivity.
  - rewrite (Written clampingEngine (Click TheMuteBtn)
               (@step clampingEngine (VolumeInput 0.4) samplePage))
      by (vm_compute; repeat split).
    vm_compute. reflexivity.
Defined.

(** ** The initial texts of the two time displays *)

Lemma mount_texts containerId videoUrl doc w :
  mount containerId videoUrl doc = Some w ->
  elapsedText w = "00:00" /\ durationText w = "00:00".
Proof.
  unfold mount, constructor, validateInputs, when, bind, getElementById.
  destruct (lookupId containerId (elements doc)); [|discriminate].
  destruct videoUrl; [simpl; discriminate|].
  cbn -[styleText].
  intros [= <-]. split; reflexivity.
Qed.

Section Displays.

Context {engine : MediaEngine}.

Lemma step_elapsedText (e : Event) (w : Page) :
  wired (widget w) ->
  elapsedText (step e w)
  = match e with
    | TimeUpdate t => if isSeeking (widget w) then elapsedText w else formatTime t
    | _ => elapsedText w
    end.
Proof.
  intros H. rewrite step_react by exact H.
  destruct w as [doc p]. unfold elapsedText.
  destruct e as [b| | | | | |]; [destruct b|..]; by_flags p; reflexivity.
Qed.

Lemma step_durationText (e : Event) (w : Page) :
  wired (widget w) ->
  durationText (step e w)
  = match e with
    | LoadedMetadata d => formatTime d
    | _ => durationText w
    end.
Proof.
  intros H. rewrite step_react by exact H.
  destruct w as [doc p]. unfold durationText.
  destruct e as [b| | | | | |]; [destruct b|..]; by_flags p; reflexivity.
Qed.

Lemma run_elapsedText (es : list Event) (w : Page) :
  wired (widget w) ->
  if progressShown es w
  then exists t : Q, elapsedText (run es w) = formatTime t
  else elapsedText (run es w) = elapsedText w.
Proof.
  revert w. induction es as [|e es IH]; intros w H; [reflexivity|].
  change (run (e :: es) w) with (run es (step e w)).
  specialize (IH (step e w) (step_wired e w H)).
  pose proof (step_elapsedText e w H) as E.
  simpl. destruct (progressShown es (step e w)).
  - rewrite orb_true_r. exact IH.
  - rewrite orb_false_r. rewrite IH, E.
    destruct e; simpl; try reflexivity.
    destruct (isSeeking (widget w)); simpl; [reflexivity|eauto].
Qed.

Lemma run_durationText (es : list Event) (w : Page) :
  wired (widget w) ->
  if existsb isLoadedMetadata es
  then exists d : Q, durationText (run es w) = formatTime d
  else durationText (run es w) = durationText w.
Proof.
  revert w. induction es as [|e es IH]; intros w H; [reflexivity|].
  change (run (e :: es) w) with (run es (step e w)).
  specialize (IH (step e w) (step_wired e w H)).
  pose proof (step_durationText e w H) as E.
  simpl. destruct (existsb isLoadedMetadata es).
  - rewrite orb_true_r. exact IH.
  - rewrite orb_false_r. rewrite IH, E.
    destruct e; simpl; try reflexivity. eauto.
Qed.

End Displays.

(** C10, as the code has it.  Right after a construction that did not
    throw, the elapsed-time and the duration display both read ["00:00"],
    a text that the formatter never produces (it renders zero as
    ["0:00"]).  Along any sequence of events the elapsed-time display keeps
    that text until the first [timeupdate] that arrives while the seeking
    flag is clear, and from then on shows formatter output; the duration
    display keeps it until the first [loadedmetadata], and from then on
    shows formatter output. *)
Theorem initial_texts_until_replaced
    (engine : MediaEngine) (containerId videoUrl : string) (doc : Document)
    (w : Page) :
  mount containerId videoUrl doc = Some w ->
  elapsedText w = "00:00"
  /\ durationText w = "00:00"
  /\ (forall t : Js.Number, formatTime t <> "00:00")
  /\ formatTime 0 = "0:00"
  /\ (forall es : list Event,
        (progressShown es w = false <-> elapsedText (run es w) = "00:00")
        /\ (progressShown es w = true ->
            exists t : Q, elapsedText (run es w) = formatTime t)
        /\ (existsb isLoadedMetadata es = false <->
            durationText (run es w) = "00:00")
        /\ (existsb isLoadedMetadata es = true ->
            exists d : Q, durationText (run es w) = formatTime d)).
Proof.
  intros M.
  pose proof (mount_wired _ _ _ _ M) as H.
  destruct (mount_texts _ _ _ _ M) as (E0 & D0).
  split; [exact E0|]. split; [exact D0|].
  split; [exact formatTime_never_initial|]. split; [reflexivity|].
  intros es.
  pose proof (run_elapsedText es w H) as E.
  pose proof (run_durationText es w H) as D.
  destruct (progressShown es w), (existsb isLoadedMetadata es).
  - destruct E as (t & E), D as (d & D). repeat split; eauto; try discriminate.
    + intros X. rewrite E in X. now apply formatTime_never_initial in X.
    + intros X. rewrite D in X. now apply formatTime_never_initial in X.
  - destruct E as (t & E). rewrite D, D0. repeat split; eauto; try discriminate.
    intros X. rewrite E in X. now apply formatTime_never_initial in X.
  - destruct D as (d & D). rewrite E, E0. repeat split; eauto; try discriminate.
    intros X. rewrite D in X. now apply formatTime_never_initial in X.
  - rewrite E, E0, D, D0. repeat split; eauto; discriminate.
Qed.

Lemma initial_texts_until_replaced_witness :
  elapsedText samplePage = "00:00" /\ durationText samplePage = "00:00".
Proof.
  assert (M : mount "video1" "../videos/Nice-1.mp4" sampleDocument = Some samplePage)
    by (vm_compute; reflexivity).
  destruct (initial_texts_until_replaced clampingEngine
              "video1" "../videos/Nice-1.mp4" sampleDocument samplePage M)
    as (E & D & _).
  split; [exact E|exact D].
Defined.

(** C10, as stated, fails.  The user grabs the seek slider before playback
    has reported any progress; the [timeupdate] that the seek causes
    arrives while the seeking flag is set, and the elapsed-time display
    still reads ["00:00"] after it. *)
Lemma initial_text_outlives_timeupdate :
  ~ (forall es : list Event,
       existsb isTimeUpdate es = true ->
       exists t : Js.Number,
         elapsedText (@run clampingEngine es samplePage) = formatTime t).
Proof.
  intros claim.
  destruct (claim [LoadedMetadata 100; ProgressInput 30; TimeUpdate 30]%Q eq_refl)
    as (t & E).
  apply (formatTime_never_initial t). rewrite <- E.
  vm_compute. reflexivity.
Qed.

(** * Further properties of the widget *)

(** ** Fullscreen *)

Section Fullscreen.

Context {engine : MediaEngine}.

(** X1.  A click on the fullscreen button changes nothing but the
    fullscreen element of the document.  When no element is fullscreen the
    video of this widget becomes the fullscreen element and a second click
    gives back the page as it was.  When some element is fullscreen, be it
    this video or anything else, the click exits fullscreen, and only a
    second click puts this video there. *)
Theorem fullscreen_click (w : Page) :
  wired (widget w) ->
  let w1 := step (Click TheFullscreenBtn) w in
  let w2 := step (Click TheFullscreenBtn) w1 in
  widget w1 = widget w
  /\ elements (document w1) = elements (document w)
  /\ head (document w1) = head (document w)
  /\ created (document w1) = created (document w)
  /\ (fullscreenElement (document w) = None ->
      fullscreenElement (document w1)
      = Some (FullscreenVideo (containerId (widget w)))
      /\ w2 = w)
  /\ (forall el, fullscreenElement (document w) = Some el ->
      fullscreenElement (document w1) = None
      /\ fullscreenElement (document w2)
         = Some (FullscreenVideo (containerId (widget w)))).
Proof.
  intros H w1 w2. subst w2 w1.
  assert (H1 : wired (widget (step (Click TheFullscreenBtn) w)))
    by now apply step_wired.
  rewrite (step_react _ (step _ w)) by exact H1.
  rewrite step_react by exact H.
  destruct w as [[els hd fs n] p]. simpl.
  unfold toggleFullscreen. simpl.
  repeat split; try (destruct fs; reflexivity).
  - simpl in *. subst. reflexivity.
  - simpl in *. subst. reflexivity.
  - simpl in *. subst. reflexivity.
  - simpl in *. subst. reflexivity.
Qed.

End Fullscreen.

Lemma fullscreen_click_witness :
  let w := samplePage in
  @step clampingEngine (Click TheFullscreenBtn)
    (@step clampingEngine (Click TheFullscreenBtn) w) = w.
Proof.
  intros w.
  assert (H : wired (widget w)) by (vm_compute; repeat split).
  destruct (@fullscreen_click clampingEngine w H) as (_ & _ & _ & _ & N & _).
  apply N. vm_compute. reflexivity.
Defined.

(** ** The seek slider *)

Section Seeking.

Context {engine : MediaEngine}.

Lemma step_isSeeking (e : Event) (w : Page) :
  wired (widget w) ->
  isSeeking (widget (step e w))
  = match e with
    | ProgressInput _ => true
    | ProgressChange => false
    | _ => isSeeking (widget w)
    end.
Proof.
  intros H. rewrite step_react by exact H.
  destruct w as [doc p].
  destruct e as [b| | | | | |]; [destruct b|..]; by_flags p; reflexivity.
Qed.

(** X3.  Only the seek slider moves the seeking flag: after any sequence
    of events the flag is set exactly when the last event of the slider was
    a drag, and it is what it was when the slider was not touched. *)
Theorem seeking_flag_follows_slider (es : list Event) (w : Page) :
  wired (widget w) ->
  isSeeking (widget (run es w)) = seekingAfter es (isSeeking (widget w)).
Proof.
  revert w. induction es as [|e es IH]; intros w H; [reflexivity|].
  change (run (e :: es) w) with (run es (step e w)).
  rewrite IH by now apply step_wired.
  rewrite step_isSeeking by exact H.
  destruct e; reflexivity.
Qed.

(** X4.  Scrubbing.  A drag of the seek slider to [v] asks the engine for
    the position [v], sets the seeking flag and leaves the elapsed-time
    text alone.  The release clears the flag without asking for a position
    again, and the next [timeupdate] is shown. *)
Theorem scrub_then_release (w : Page) (v t : Q) :
  wired (widget w) ->
  let dragged := step (ProgressInput v) w in
  let released := step ProgressChange dragged in
  let resumed := step (TimeUpdate t) released in
  positionOf (widget dragged) = seek (engineOf w) v
  /\ Range.value (progressBar (widget dragged)) = v
  /\ isSeeking (widget dragged) = true
  /\ elapsedText dragged = elapsedText w
  /\ released = on_widget (set_isSeeking false) dragged
  /\ Range.value (progressBar (widget resumed)) = t
  /\ elapsedText resumed = formatTime t.
Proof.
  intros H dragged released resumed. subst resumed released dragged.
  assert (H1 : wired (widget (step (ProgressInput v) w))) by now apply step_wired.
  assert (H2 : wired (widget (step ProgressChange (step (ProgressInput v) w))))
    by now apply step_wired.
  rewrite (step_react (TimeUpdate t)) by exact H2.
  rewrite (step_react ProgressChange) by exact H1.
  rewrite step_react by exact H.
  destruct w as [doc p]. repeat split.
Qed.

End Seeking.

Lemma seeking_flag_follows_slider_witness :
  isSeeking (widget (@run clampingEngine
     [ProgressInput 3; TimeUpdate 3; Click TheMuteBtn; ProgressInput 4]%Q samplePage))
  = true.
Proof.
  assert (H : wired (widget samplePage)) by (vm_compute; repeat split).
  rewrite (@seeking_flag_follows_slider clampingEngine _ samplePage H).
  reflexivity.
Defined.

Lemma scrub_then_release_witness :
  let w := @step clampingEngine (LoadedMetadata 100) samplePage in
  elapsedText
    (@step clampingEngine (TimeUpdate 31)
       (@step clampingEngine ProgressChange
          (@step clampingEngine (ProgressInput 30) w)))
  = "0:31".
Proof.
  intros w.
  assert (H : wired (widget w)) by (vm_compute; repeat split).
  destruct (@scrub_then_release clampingEngine w 30%Q 31%Q H)
    as (_ & _ & _ & _ & _ & _ & E).
  rewrite E. reflexivity.
Defined.

(** ** Duration *)

Section Metadata.

Context {engine : MediaEngine}.

Lemma step_metadata (e : Event) (w : Page) :
  wired (widget w) ->
  match e with
  | LoadedMetadata d =>
      Video.duration (engineOf (step e w)) = Some d
      /\ Range.max (progressBar (widget (step e w))) = Some d
      /\ durationText (step e w) = formatTime d
  | _ =>
      Video.duration (engineOf (step e w)) = Video.duration (engineOf w)
      /\ Range.max (progressBar (widget (step e w)))
         = Range.max (progressBar (widget w))
      /\ durationText (step e w) = durationText w
  end.
Proof.
  intros H. rewrite step_react by exact H.
  destruct w as [doc p]. unfold durationText, engineOf.
  destruct e as [b| | | | | |]; [destruct b|..]; by_flags p; repeat split.
Qed.

Lemma run_metadata (es : list Event) (w : Page) (known : option Q) :
  wired (widget w) ->
  match known with
  | Some d =>
      Video.duration (engineOf w) = Some d
      /\ Range.max (progressBar (widget w)) = Some d
      /\ durationText w = formatTime d
  | None => True
  end ->
  match lastDuration es known with
  | Some d =>
      Video.duration (engineOf (run es w)) = Some d
      /\ Range.max (progressBar (widget (run es w))) = Some d
      /\ durationText (run es w) = formatTime d
  | None =>
      Video.duration (engineOf (run es w)) = Video.duration (engineOf w)
      /\ Range.max (progressBar (widget (run es w)))
         = Range.max (progressBar (widget w))
      /\ durationText (run es w) = durationText w
  end.
Proof.
  revert w known. induction es as [|e es IH]; intros w known H K.
  - simpl. destruct known; [exact K|repeat split].
  - change (run (e :: es) w) with (run es (step e w)).
    pose proof (step_metadata e w H) as S.
    pose proof (step_wired e w H) as H'.
    destruct e as [b|t|d|v| |v|];
      try (simpl lastDuration;
           specialize (IH (step _ w) known H');
           destruct S as (S1 & S2 & S3);
           destruct (lastDuration es known) eqn:L;
           [ apply IH; destruct known; [rewrite S1, S2, S3; exact K|exact I]
           | destruct known as [d0|];
             [ specialize (IH ltac:(rewrite S1, S2, S3; exact K))
             | specialize (IH I) ];
             rewrite <- S1, <- S2, <- S3; exact IH ]).
    simpl lastDuration.
    specialize (IH (step (LoadedMetadata d) w) (Some d) H' S).
    destruct (lastDuration es (Some d)) eqn:L; [exact IH|].
    exfalso. clear -L. revert d L. induction es as [|e es IHes]; intros d L.
    + discriminate L.
    + destruct e; simpl in L; eauto.
Qed.

End Metadata.

(** X5.  The range of the seek slider and the duration text follow the
    engine.  Until a [loadedmetadata] arrives the slider's maximum is 0,
    the text is ["00:00"] and the engine has no duration; from then on the
    maximum is the duration that the last [loadedmetadata] reported and the
    text is that duration formatted.  No other event touches them. *)
Theorem duration_follows_metadata
    (engine : MediaEngine) (containerId videoUrl : string) (doc : Document)
    (w : Page) (es : list Event) :
  mount containerId videoUrl doc = Some w ->
  match lastDuration es None with
  | Some d =>
      Video.duration (engineOf (run es w)) = Some d
      /\ Range.max (progressBar (widget (run es w))) = Some d
      /\ durationText (run es w) = formatTime d
  | None =>
      Video.duration (engineOf (run es w)) = None
      /\ Range.max (progressBar (widget (run es w))) = Some 0%Q
      /\ durationText (run es w) = "00:00"
  end.
Proof.
  intros M.
  pose proof (run_metadata es w None (mount_wired _ _ _ _ M) I) as R.
  destruct (lastDuration es None); [exact R|].
  destruct R as (R1 & R2 & R3). rewrite R1, R2, R3.
  revert M. unfold mount, constructor, validateInputs, when, bind, getElementById.
  destruct (lookupId containerId (elements doc)); [|discriminate].
  destruct videoUrl; [simpl; discriminate|].
  cbn -[styleText].
  intros [= <-]. repeat split.
Qed.

Lemma duration_follows_metadata_witness :
  let es := [LoadedMetadata 100; TimeUpdate 3; LoadedMetadata 4503]%Q in
  durationText (@run clampingEngine es samplePage) = "75:03".
Proof.
  intros es.
  assert (M : mount "video1" "../videos/Nice-1.mp4" sampleDocument = Some samplePage)
    by (vm_compute; reflexivity).
  pose proof (duration_follows_metadata clampingEngine _ _ _ samplePage es M) as R.
  destruct R as (_ & _ & R). rewrite R. reflexivity.
Defined.

(** ** Volume, mute and play across events *)

(** The facts about a freshly constructed player that the invariants start
    from. *)
Lemma mount_initial containerId videoUrl doc w :
  mount containerId videoUrl doc = Some w ->
  Video.volume (engineOf w) = 1%Q
  /\ Range.value (volumeBar (widget w)) = 1%Q
  /\ previousVolume (widget w) = 1%Q
  /\ Video.muted (engineOf w) = false
  /\ Video.paused (engineOf w) = true
  /\ Button.icon_className (muteBtn (widget w)) = "fa-solid fa-volume-up"
  /\ Button.icon_className (playPauseBtn (widget w)) = "fa-solid fa-play".
Proof.
  unfold mount, constructor, validateInputs, when, bind, getElementById.
  destruct (lookupId containerId (elements doc)); [|discriminate].
  destruct videoUrl; [simpl; discriminate|].
  cbn -[styleText].
  intros [= <-]. repeat split.
Qed.

Section Invariants.

Context {engine : MediaEngine}.

(** An invariant of single steps is an invariant of runs. *)
Lemma run_invariant (Inv : Page -> Prop) (allowed : Event -> bool) :
  (forall e w, wired (widget w) -> allowed e = true -> Inv w -> Inv (step e w)) ->
  forall es w, wired (widget w) -> forallb allowed es = true ->
               Inv w -> Inv (run es w).
Proof.
  intros Step es. induction es as [|e es IH]; intros w H A I0; [exact I0|].
  simpl in A. apply andb_true_iff in A. destruct A as (A1 & A2).
  change (run (e :: es) w) with (run es (step e w)).
  apply IH; [now apply step_wired|exact A2|now apply Step].
Qed.

Lemma forallb_always (es : list Event) : forallb (fun _ => true) es = true.
Proof. induction es; simpl; auto. Qed.

Lemma step_volume_shown (e : Event) (w : Page) :
  wired (widget w) ->
  Range.value (volumeBar (widget w)) = Video.volume (engineOf w) ->
  Range.value (volumeBar (widget (step e w))) = Video.volume (engineOf (step e w)).
Proof.
  intros H. rewrite step_react by exact H.
  destruct w as [doc p]. unfold engineOf.
  destruct e as [b| | | | | |]; [destruct b|..]; by_flags p; simpl; auto.
Qed.

Lemma step_mute_icon (e : Event) (w : Page) :
  wired (widget w) ->
  Button.icon_className (muteBtn (widget w))
  = (if Video.muted (engineOf w) then "fa-solid fa-volume-xmark"
     else "fa-solid fa-volume-up") ->
  Button.icon_className (muteBtn (widget (step e w)))
  = (if Video.muted (engineOf (step e w)) then "fa-solid fa-volume-xmark"
     else "fa-solid fa-volume-up").
Proof.
  intros H. rewrite step_react by exact H.
  destruct w as [doc p]. unfold engineOf.
  destruct e as [b| | | | | |]; [destruct b|..]; by_flags p; simpl; auto.
Qed.

Lemma step_play_icon (e : Event) (w : Page) :
  wired (widget w) ->
  isEnded e = false ->
  Button.icon_className (playPauseBtn (widget w))
  = (if Video.paused (engineOf w) then "fa-solid fa-play" else "fa-solid fa-pause") ->
  Button.icon_className (playPauseBtn (widget (step e w)))
  = (if Video.paused (engineOf (step e w)) then "fa-solid fa-play"
     else "fa-solid fa-pause").
Proof.
  intros H. rewrite step_react by exact H.
  destruct w as [doc p]. unfold engineOf.
  destruct e as [b| | | | | |]; [destruct b|..]; by_flags p; simpl; auto;
    discriminate.
Qed.

Lemma step_volume_bounds (e : Event) (w : Page) :
  wired (widget w) ->
  volumeDragsInRange [e] ->
  isVolume (Video.volume (engineOf w)) /\ isVolume (previousVolume (widget w)) ->
  isVolume (Video.volume (engineOf (step e w)))
  /\ isVolume (previousVolume (widget (step e w))).
Proof.
  intros H. rewrite step_react by exact H.
  destruct w as [doc p]. unfold engineOf.
  assert (Z0 : isVolume 0) by (split; discriminate).
  destruct e as [b| | | | | |]; [destruct b|..]; by_flags p; simpl;
    intros R (V & P); try tauto.
Qed.

Lemma run_volume_bounds (es : list Event) (w : Page) :
  wired (widget w) ->
  volumeDragsInRange es ->
  isVolume (Video.volume (engineOf w)) /\ isVolume (previousVolume (widget w)) ->
  isVolume (Video.volume (engineOf (run es w)))
  /\ isVolume (previousVolume (widget (run es w))).
Proof.
  revert w. induction es as [|e es IH]; intros w H R I0; [exact I0|].
  change (run (e :: es) w) with (run es (step e w)).
  apply IH; [now apply step_wired| |].
  - destruct e; simpl in R; tauto.
  - apply step_volume_bounds; [exact H| |exact I0].
    destruct e; simpl in *; tauto.
Qed.

End Invariants.

(** X6.  The volume slider always shows the engine volume: after
    construction and any sequence of events, the value of the slider and
    the volume of the engine are the same number, muted or not. *)
Theorem volume_slider_shows_engine_volume
    (engine : MediaEngine) (containerId videoUrl : string) (doc : Document)
    (w : Page) (es : list Event) :
  mount containerId videoUrl doc = Some w ->
  Range.value (volumeBar (widget (run es w))) = Video.volume (engineOf (run es w)).
Proof.
  intros M. destruct (mount_initial _ _ _ _ M) as (V & S & _).
  apply (run_invariant
           (fun w => Range.value (volumeBar (widget w)) = Video.volume (engineOf w))
           (fun _ => true)).
  - intros e w0 H _. now apply step_volume_shown.
  - exact (mount_wired _ _ _ _ M).
  - apply forallb_always.
  - now rewrite V, S.
Qed.

(** X7.  The icon of the mute button always agrees with the muted flag of
    the engine: after construction and any sequence of events it is the
    crossed-out loudspeaker when the flag is set and the loudspeaker when
    it is clear. *)
Theorem mute_icon_agrees_with_flag
    (engine : MediaEngine) (containerId videoUrl : string) (doc : Document)
    (w : Page) (es : list Event) :
  mount containerId videoUrl doc = Some w ->
  Button.icon_className (muteBtn (widget (run es w)))
  = (if Video.muted (engineOf (run es w)) then "fa-solid fa-volume-xmark"
     else "fa-solid fa-volume-up").
Proof.
  intros M. destruct (mount_initial _ _ _ _ M) as (_ & _ & _ & Mu & _ & I & _).
  apply (run_invariant
           (fun w => Button.icon_className (muteBtn (widget w))
                     = (if Video.muted (engineOf w) then "fa-solid fa-volume-xmark"
                        else "fa-solid fa-volume-up"))
           (fun _ => true)).
  - intros e w0 H _. now apply step_mute_icon.
  - exact (mount_wired _ _ _ _ M).
  - apply forallb_always.
  - now rewrite Mu, I.
Qed.

(** X8.  The icon of the play button agrees with the engine as long as the
    engine does not pause by itself: after construction and any sequence
    of events without an end of playback, the button shows the play glyph
    when the engine is paused and the pause glyph when it plays.  And
    whatever the button showed before, a click on it makes the two
    agree. *)
Theorem play_icon_agrees_with_engine (engine : MediaEngine) :
  (forall containerId videoUrl doc w es,
     mount containerId videoUrl doc = Some w ->
     existsb isEnded es = false ->
     Button.icon_className (playPauseBtn (widget (run es w)))
     = (if Video.paused (engineOf (run es w)) then "fa-solid fa-play"
        else "fa-solid fa-pause"))
  /\ (forall w,
        wired (widget w) ->
        let w' := step (Click ThePlayPauseBtn) w in
        Video.paused (engineOf w') = negb (Video.paused (engineOf w))
        /\ Button.icon_className (playPauseBtn (widget w'))
           = (if Video.paused (engineOf w') then "fa-solid fa-play"
              else "fa-solid fa-pause")).
Proof.
  split.
  - intros containerId videoUrl doc w es M E.
    destruct (mount_initial _ _ _ _ M) as (_ & _ & _ & _ & P & _ & I).
    apply (run_invariant
             (fun w => Button.icon_className (playPauseBtn (widget w))
                       = (if Video.paused (engineOf w) then "fa-solid fa-play"
                          else "fa-solid fa-pause"))
             (fun e => negb (isEnded e))).
    + intros e w0 H A. apply step_play_icon; [exact H|].
      now apply negb_true_iff in A.
    + exact (mount_wired _ _ _ _ M).
    + clear -E. induction es as [|e es IH]; [reflexivity|].
      simpl in *. apply orb_false_iff in E. destruct E as (E1 & E2).
      rewrite E1. simpl. now apply IH.
    + now rewrite P, I.
  - intros w H. cbv zeta. rewrite step_react by exact H.
    destruct w as [doc p]. unfold engineOf. by_flags p; split; reflexivity.
Qed.

(** X9.  The widget never asks the engine for a volume outside [0, 1]:
    after construction, along any sequence of events in which the volume
    slider delivers values of its range, the engine volume and the
    remembered volume are both between 0 and 1. *)
Theorem volumes_stay_in_range
    (engine : MediaEngine) (containerId videoUrl : string) (doc : Document)
    (w : Page) (es : list Event) :
  mount containerId videoUrl doc = Some w ->
  volumeDragsInRange es ->
  isVolume (Video.volume (engineOf (run es w)))
  /\ isVolume (previousVolume (widget (run es w))).
Proof.
  intros M R. destruct (mount_initial _ _ _ _ M) as (V & _ & P & _).
  apply run_volume_bounds; [exact (mount_wired _ _ _ _ M)|exact R|].
  rewrite V, P. split; split; discriminate.
Qed.

(** X10.  A drag of the volume slider while muted is lost on unmute.  From
    an unmuted state with volume [v0]: after a click on mute and a drag to
    [v] the engine volume is [v] with the muted flag still set, and the
    next click on mute puts the engine volume and the slider back to [v0],
    not to [v]. *)
Theorem unmute_discards_drag (engine : MediaEngine) (w : Page) (v : Q) :
  wired (widget w) ->
  Video.muted (engineOf w) = false ->
  let dragged := run [Click TheMuteBtn; VolumeInput v] w in
  let unmuted := step (Click TheMuteBtn) dragged in
  Video.muted (engineOf dragged) = true
  /\ Video.volume (engineOf dragged) = v
  /\ previousVolume (widget dragged) = Video.volume (engineOf w)
  /\ Video.muted (engineOf unmuted) = false
  /\ Video.volume (engineOf unmuted) = Video.volume (engineOf w)
  /\ Range.value (volumeBar (widget unmuted)) = Video.volume (engineOf w).
Proof.
  intros H Mu dragged unmuted. subst unmuted dragged.
  change (run [Click TheMuteBtn; VolumeInput v] w)
    with (step (VolumeInput v) (step (Click TheMuteBtn) w)).
  assert (H1 : wired (widget (step (Click TheMuteBtn) w))) by now apply step_wired.
  assert (H2 : wired (widget (step (VolumeInput v) (step (Click TheMuteBtn) w))))
    by now apply step_wired.
  rewrite (step_react (Click TheMuteBtn) (step (VolumeInput v) _)) by exact H2.
  rewrite (step_react (VolumeInput v)) by exact H1.
  rewrite step_react by exact H.
  destruct w as [doc p]. unfold engineOf in *. simpl in Mu. simpl.
  unfold toggleMute. simpl. rewrite Mu. simpl. repeat split.
Qed.

Lemma volume_slider_shows_engine_volume_witness :
  let es := [Click TheMuteBtn; VolumeInput 0.3; Click TheMuteBtn; VolumeInput 0.7]%Q in
  Range.value (volumeBar (widget (@run clampingEngine es samplePage)))
  = Video.volume (engineOf (@run clampingEngine es samplePage)).
Proof.
  intros es.
  assert (M : mount "video1" "../videos/Nice-1.mp4" sampleDocument = Some samplePage)
    by (vm_compute; reflexivity).
  exact (volume_slider_shows_engine_volume clampingEngine _ _ _ samplePage es M).
Defined.

Lemma mute_icon_agrees_with_flag_witness :
  Button.icon_className
    (muteBtn (widget (@run clampingEngine [Click TheMuteBtn; VolumeInput 0.3]%Q samplePage)))
  = "fa-solid fa-volume-xmark".
Proof.
  assert (M : mount "video1" "../videos/Nice-1.mp4" sampleDocument = Some samplePage)
    by (vm_compute; reflexivity).
  rewrite (mute_icon_agrees_with_flag clampingEngine _ _ _ samplePage _ M).
  vm_compute. reflexivity.
Defined.

Lemma play_icon_agrees_with_engine_witness :
  Button.icon_className
    (playPauseBtn (widget (@run clampingEngine
       [Click ThePlayPauseBtn; TimeUpdate 2; Click TheSkipForwardBtn]%Q samplePage)))
  = "fa-solid fa-pause".
Proof.
  assert (M : mount "video1" "../videos/Nice-1.mp4" sampleDocument = Some samplePage)
    by (vm_compute; reflexivity).
  rewrite (proj1 (play_icon_agrees_with_engine clampingEngine) _ _ _ samplePage _ M)
    by (vm_compute; reflexivity).
  vm_compute. reflexivity.
Defined.

Lemma volumes_stay_in_range_witness :
  let es := [VolumeInput 0.3; Click TheMuteBtn; VolumeInput 1; Click TheMuteBtn]%Q in
  isVolume (Video.volume (engineOf (@run clampingEngine es samplePage)))
  /\ isVolume (previousVolume (widget (@run clampingEngine es samplePage))).
Proof.
  intros es.
  assert (M : mount "video1" "../videos/Nice-1.mp4" sampleDocument = Some samplePage)
    by (vm_compute; reflexivity).
  apply (volumes_stay_in_range clampingEngine _ _ _ samplePage es M).
  vm_compute. intuition discriminate.
Defined.

Lemma unmute_discards_drag_witness :
  let w := @step clampingEngine (VolumeInput 0.4) samplePage in
  (Video.volume (engineOf
     (@step clampingEngine (Click TheMuteBtn)
        (@run clampingEngine [Click TheMuteBtn; VolumeInput 0.9] w)))
   = 0.4)%Q.
Proof.
  intros w.
  assert (H : wired (widget w)) by (vm_compute; repeat split).
  assert (Mu : Video.muted (engineOf w) = false) by (vm_compute; reflexivity).
  destruct (unmute_discards_drag clampingEngine w 0.9%Q H Mu)
    as (_ & _ & _ & _ & V & _).
  rewrite V. vm_compute. reflexivity.
Defined.

(** ** What construction builds *)

Lemma lookupId_appendAt (id id' : string) (new : list Node) els :
  lookupId id' (appendAt id new els)
  = if String.eqb id' id
    then option_map (fun children => (children ++ new)%list) (lookupId id els)
    else lookupId id' els.
Proof.
  induction els as [|[k children] els IH]; simpl.
  - now destruct (String.eqb id' id).
  - destruct (String.eqb id k) eqn:E1; simpl;
      destruct (String.eqb id' k) eqn:E2;
      destruct (String.eqb id' id) eqn:E3;
      rewrite ?IH, ?E3; try reflexivity; exfalso;
      repeat match goal with
             | H : String.eqb _ _ = true |- _ => apply String.eqb_eq in H
             | H : String.eqb _ _ = false |- _ => apply String.eqb_neq in H
             end; congruence.
Qed.

(** The outcome of a construction on valid inputs, in full. *)
Lemma constructor_valid containerId videoUrl doc children :
  lookupId containerId (elements doc) = Some children ->
  videoUrl <> "" ->
  exists p video,
    constructor containerId videoUrl doc
    = (mkDocument
         (appendAt containerId [VideoNode video; DivNode (controlsContainer p)]
                   (elements doc))
         (head doc ++ [StyleNode (styleText containerId)])%list
         (fullscreenElement doc) (18 + created doc),
       Normal p)
    /\ video = Video.mk videoUrl ["video"] "100%" 0 None true false 1 []
    /\ Video.listeners (videoElement p)
       = [("timeupdate", OnUpdateProgress); ("loadedmetadata", OnLoadedMetadata)]
    /\ div_classList (controlsContainer p) = ["controls"]
    /\ div_children (controlsContainer p)
       = [ButtonNode (playPauseBtn p); ButtonNode (skipBackwardBtn p);
          ButtonNode (skipForwardBtn p); ButtonNode (muteBtn p);
          InputNode (withoutListeners (volumeBar p)); ButtonNode (fullscreenBtn p);
          DivNode (mkDiv ["time-container"]
                     [SpanNode (currentTimeDisplay p);
                      InputNode (withoutListeners (progressBar p));
                      SpanNode (durationDisplay p)])].
Proof.
  intros L U.
  unfold constructor, bind at 1.
  rewrite (validateInputs_ok _ _ _ _ L U).
  cbn -[styleText].
  match goal with
  | |- context [setupEventListeners ?built] =>
      exists (setupEventListeners built)
  end.
  eexists. split; [reflexivity|]. repeat split.
Qed.

(** X11.  A construction on valid inputs appends exactly two nodes to the
    mount point, after whatever the mount point already held: the video,
    with the locator as its source, and the control strip.  The strip
    holds, in this order, the play/pause, skip-backward, skip-forward and
    mute buttons, the volume slider, the fullscreen button and the time
    block, and the time block holds the elapsed-time text, the seek slider
    and the duration text.  Every other element with an id keeps its
    children, one style block is appended to the head, and eighteen
    elements are created. *)
Theorem construction_builds_subtree containerId videoUrl doc children :
  lookupId containerId (elements doc) = Some children ->
  videoUrl <> "" ->
  exists p doc' video,
    constructor containerId videoUrl doc = (doc', Normal p)
    /\ lookupId containerId (elements doc')
       = Some (children ++ [VideoNode video; DivNode (controlsContainer p)])%list
    /\ Video.src video = videoUrl
    /\ div_children (controlsContainer p)
       = [ButtonNode (playPauseBtn p); ButtonNode (skipBackwardBtn p);
          ButtonNode (skipForwardBtn p); ButtonNode (muteBtn p);
          InputNode (withoutListeners (volumeBar p)); ButtonNode (fullscreenBtn p);
          DivNode (mkDiv ["time-container"]
                     [SpanNode (currentTimeDisplay p);
                      InputNode (withoutListeners (progressBar p));
                      SpanNode (durationDisplay p)])]
    /\ (forall id', id' <> containerId ->
          lookupId id' (elements doc') = lookupId id' (elements doc))
    /\ head doc' = (head doc ++ [StyleNode (styleText containerId)])%list
    /\ fullscreenElement doc' = fullscreenElement doc
    /\ created doc' = (18 + created doc)%nat.
Proof.
  intros L U.
  destruct (constructor_valid _ _ _ _ L U) as (p & video & E & V & _ & _ & C).
  exists p. eexists. exists video. split; [exact E|]. simpl.
  split; [rewrite lookupId_appendAt, String.eqb_refl, L; reflexivity|].
  split; [subst video; reflexivity|].
  split; [exact C|].
  split; [|repeat split].
  intros id' N. rewrite lookupId_appendAt.
  now rewrite (proj2 (String.eqb_neq id' containerId) N).
Qed.

Lemma construction_builds_subtree_witness :
  exists p doc' video,
    constructor "video2" "../videos/First-1.mp4" sampleDocument = (doc', Normal p)
    /\ lookupId "video2" (elements doc')
       = Some [VideoNode video; DivNode (controlsContainer p)]
    /\ lookupId "video1" (elements doc') = Some [].
Proof.
  assert (L : lookupId "video2" (elements sampleDocument) = Some [])
    by reflexivity.
  assert (U : "../videos/First-1.mp4" <> "") by discriminate.
  destruct (construction_builds_subtree "video2" "../videos/First-1.mp4"
              sampleDocument [] L U)
    as (p & doc' & video & E & C & _ & _ & O & _).
  exists p, doc', video. split; [exact E|]. split; [exact C|].
  rewrite O by discriminate. reflexivity.
Defined.

Lemma constructor_unresolved containerId videoUrl doc :
  lookupId containerId (elements doc) = None ->
  constructor containerId videoUrl doc
  = (doc, Throw (mkError ("Invalid container ID: " ++ containerId))).
Proof.
  intros L. unfold constructor, validateInputs, when, bind, getElementById.
  rewrite L. reflexivity.
Qed.

(** X12.  Constructing twice on the same mount point works and piles up:
    the second construction succeeds on the document that the first one
    left, the mount point ends with both videos and both control strips
    after its former children, and the head ends with the same style block
    twice. *)
Theorem constructing_twice containerId url1 url2 doc children :
  lookupId containerId (elements doc) = Some children ->
  url1 <> "" -> url2 <> "" ->
  exists p1 doc1 p2 doc2 v1 v2,
    constructor containerId url1 doc = (doc1, Normal p1)
    /\ constructor containerId url2 doc1 = (doc2, Normal p2)
    /\ lookupId containerId (elements doc2)
       = Some (children
               ++ [VideoNode v1; DivNode (controlsContainer p1)]
               ++ [VideoNode v2; DivNode (controlsContainer p2)])%list
    /\ Video.src v1 = url1 /\ Video.src v2 = url2
    /\ head doc2
       = (head doc ++ [StyleNode (styleText containerId);
                       StyleNode (styleText containerId)])%list
    /\ created doc2 = (36 + created doc)%nat.
Proof.
  intros L U1 U2.
  destruct (constructor_valid _ _ _ _ L U1) as (p1 & v1 & E1 & V1 & _).
  match type of E1 with _ = (?d, _) => remember d as doc1 eqn:D1 end.
  assert (L1 : lookupId containerId (elements doc1)
               = Some (children ++ [VideoNode v1; DivNode (controlsContainer p1)])%list).
  { rewrite D1. simpl. now rewrite lookupId_appendAt, String.eqb_refl, L. }
  assert (H1 : head doc1 = (head doc ++ [StyleNode (styleText containerId)])%list)
    by (rewrite D1; reflexivity).
  assert (C1 : created doc1 = (18 + created doc)%nat) by (rewrite D1; reflexivity).
  destruct (constructor_valid _ _ _ _ L1 U2) as (p2 & v2 & E2 & V2 & _).
  exists p1, doc1, p2. eexists. exists v1, v2.
  split; [exact E1|]. split; [exact E2|]. cbn [elements head created].
  split; [rewrite lookupId_appendAt, String.eqb_refl, L1; simpl;
          now rewrite <- app_assoc|].
  split; [subst v1; reflexivity|]. split; [subst v2; reflexivity|].
  split; [rewrite H1; now rewrite <- app_assoc|rewrite C1; reflexivity].
Qed.

Lemma constructing_twice_witness :
  exists p1 doc1 p2 doc2,
    constructor "video1" "../videos/Nice-1.mp4" sampleDocument = (doc1, Normal p1)
    /\ constructor "video1" "../videos/First-1.mp4" doc1 = (doc2, Normal p2)
    /\ created doc2 = 36%nat.
Proof.
  assert (L : lookupId "video1" (elements sampleDocument) = Some []) by reflexivity.
  assert (U1 : "../videos/Nice-1.mp4" <> "") by discriminate.
  assert (U2 : "../videos/First-1.mp4" <> "") by discriminate.
  destruct (constructing_twice "video1" _ _ sampleDocument [] L U1 U2)
    as (p1 & doc1 & p2 & doc2 & _ & _ & E1 & E2 & _ & _ & _ & _ & C).
  exists p1, doc1, p2, doc2. split; [exact E1|]. split; [exact E2|exact C].
Defined.

(** X13.  The script at the end of the file.  Without a mount point
    [video1] it throws before anything is built.  With [video1] but
    without [video2] it throws for [video2] only after the first player
    has been built: the document it leaves holds that player and its style
    block.  With both mount points it builds both players, thirty-six
    elements and two style blocks, the one of [video1] first. *)
Theorem main_outcomes (doc : Document) :
  (lookupId "video1" (elements doc) = None ->
     main doc = (doc, Throw (mkError "Invalid container ID: video1")))
  /\ (forall c1,
        lookupId "video1" (elements doc) = Some c1 ->
        lookupId "video2" (elements doc) = None ->
        exists p1 doc1 v1,
          constructor "video1" "../videos/Nice-1.mp4" doc = (doc1, Normal p1)
          /\ main doc = (doc1, Throw (mkError "Invalid container ID: video2"))
          /\ lookupId "video1" (elements doc1)
             = Some (c1 ++ [VideoNode v1; DivNode (controlsContainer p1)])%list
          /\ head doc1 = (head doc ++ [StyleNode (styleText "video1")])%list
          /\ created doc1 = (18 + created doc)%nat)
  /\ (forall c1 c2,
        lookupId "video1" (elements doc) = Some c1 ->
        lookupId "video2" (elements doc) = Some c2 ->
        exists p1 p2 doc2 v1 v2,
          main doc = (doc2, Normal (p1, p2))
          /\ lookupId "video1" (elements doc2)
             = Some (c1 ++ [VideoNode v1; DivNode (controlsContainer p1)])%list
          /\ lookupId "video2" (elements doc2)
             = Some (c2 ++ [VideoNode v2; DivNode (controlsContainer p2)])%list
          /\ head doc2
             = (head doc ++ [StyleNode (styleText "video1");
                             StyleNode (styleText "video2")])%list
          /\ created doc2 = (36 + created doc)%nat).
Proof.
  assert (U1 : "../videos/Nice-1.mp4" <> "") by discriminate.
  assert (U2 : "../videos/First-1.mp4" <> "") by discriminate.
  split; [|split].
  - intros L. unfold main, bind.
    rewrite (constructor_unresolved _ _ _ L). reflexivity.
  - intros c1 L1 L2.
    destruct (constructor_valid _ _ _ _ L1 U1) as (p1 & v1 & E1 & _).
    match type of E1 with _ = (?d, _) => set (doc1 := d) in * end.
    assert (L2' : lookupId "video2" (elements doc1) = None).
    { unfold doc1. simpl. rewrite lookupId_appendAt. exact L2. }
    exists p1, doc1, v1. split; [exact E1|].
    split.
    { unfold main, bind. rewrite E1.
      rewrite (constructor_unresolved _ _ _ L2'). reflexivity. }
    unfold doc1. simpl.
    split; [now rewrite lookupId_appendAt, String.eqb_refl, L1|].
    split; reflexivity.
  - intros c1 c2 L1 L2.
    destruct (constructor_valid _ _ _ _ L1 U1) as (p1 & v1 & E1 & _).
    match type of E1 with _ = (?d, _) => remember d as doc1 eqn:D1 end.
    assert (L1' : lookupId "video1" (elements doc1)
                  = Some (c1 ++ [VideoNode v1; DivNode (controlsContainer p1)])%list).
    { rewrite D1. simpl. now rewrite lookupId_appendAt, String.eqb_refl, L1. }
    assert (L2' : lookupId "video2" (elements doc1) = Some c2).
    { rewrite D1. simpl. rewrite lookupId_appendAt. exact L2. }
    assert (H1 : head doc1 = (head doc ++ [StyleNode (styleText "video1")])%list)
      by (rewrite D1; reflexivity).
    assert (C1 : created doc1 = (18 + created doc)%nat) by (rewrite D1; reflexivity).
    destruct (constructor_valid _ _ _ _ L2' U2) as (p2 & v2 & E2 & _).
    exists p1, p2. eexists. exists v1, v2.
    split.
    { unfold main, bind. rewrite E1, E2. reflexivity. }
    cbn [elements head created].
    split; [rewrite lookupId_appendAt; exact L1'|].
    split; [now rewrite lookupId_appendAt, String.eqb_refl, L2'|].
    split; [rewrite H1; now rewrite <- app_assoc|rewrite C1; reflexivity].
Qed.

(** A page with the first mount point only. *)
Lemma main_outcomes_witness :
  let doc := mkDocument [("video1", [])] [] None 0 in
  exists p1 doc1,
    constructor "video1" "../videos/Nice-1.mp4" doc = (doc1, Normal p1)
    /\ main doc = (doc1, Throw (mkError "Invalid container ID: video2"))
    /\ created doc1 = 18%nat.
Proof.
  intros doc.
  destruct (proj1 (proj2 (main_outcomes doc)) [] eq_refl eq_refl)
    as (p1 & doc1 & v1 & E & M & _ & _ & C).
  exists p1, doc1. split; [exact E|]. split; [exact M|exact C].
Defined.

(** ** One listener per event *)

(** X14.  Every element of the widget has at most one listener for any
    event type, after construction and after any sequence of events: no
    handler adds or removes a listener, so each event runs exactly the
    handler that construction bound to it, or none. *)
Theorem one_listener_per_event
    (engine : MediaEngine) (containerId videoUrl : string) (doc : Document)
    (w : Page) (es : list Event) :
  mount containerId videoUrl doc = Some w ->
  wired (widget (run es w))
  /\ (forall (t : Target) (type : string),
        (List.length (registered type (listenersOf (widget (run es w)) t)) <= 1)%nat)
  /\ (forall e : Event, step e (run es w) = react e (run es w)).
Proof.
  intros M.
  assert (H : wired (widget (run es w))) by (apply run_wired, (mount_wired _ _ _ _ M)).
  split; [exact H|]. split; [|intros e; now apply step_react].
  destruct H as (Hv & Hp & Hvol & Hpp & Hsb & Hsf & Hm & Hf).
  intros t type. destruct t; unfold listenersOf, registered;
    rewrite ?Hv, ?Hp, ?Hvol, ?Hpp, ?Hsb, ?Hsf, ?Hm, ?Hf; cbn [filter fst snd map];
    repeat match goal with
           | |- context [String.eqb ?a type] =>
               let E := fresh "E" in destruct (String.eqb_spec a type) as [E|E]
           end; cbn [map List.length]; try lia; congruence.
Qed.

Lemma one_listener_per_event_witness :
  (List.length (registered "input"
     (listenersOf (widget (@run clampingEngine [ProgressInput 3; ProgressChange]%Q
                             samplePage)) TheProgressBar)) <= 1)%nat.
Proof.
  assert (M : mount "video1" "../videos/Nice-1.mp4" sampleDocument = Some samplePage)
    by (vm_compute; reflexivity).
  destruct (one_listener_per_event clampingEngine _ _ _ samplePage
              [ProgressInput 3; ProgressChange]%Q M) as (_ & O & _).
  apply O.
Defined.

(** ** More on the time formatter *)

(** Whole minutes of a duration are whole minutes of its whole seconds. *)
Lemma floor_div60 (d : Q) : Qfloor (d / 60) = Qfloor d / 60.
Proof.
  destruct d as [n den]. unfold Qdiv, Qmult, Qinv, Qfloor. simpl.
  rewrite Z.mul_1_r, Pos2Z.inj_mul, Z.div_div; [reflexivity|discriminate|lia].
Qed.

Lemma floor_minus_Z (d : Q) (k : Z) :
  Qfloor (d - inject_Z k) = Qfloor d - k.
Proof.
  apply floor_unique.
  pose proof (Qfloor_le d) as Hlo.
  pose proof (Qlt_floor d) as Hhi.
  rewrite inject_Z_plus in Hhi.
  unfold Z.sub. rewrite !inject_Z_plus, inject_Z_opp.
  change (inject_Z 1) with 1%Q in *.
  split; lra.
Qed.

Lemma seconds_field (d : Q) :
  Qfloor (d - 60 * inject_Z (Qfloor (d / 60))) = Qfloor d mod 60.
Proof.
  change (60 * inject_Z (Qfloor (d / 60)))%Q
    with (inject_Z 60 * inject_Z (Qfloor (d / 60)))%Q.
  rewrite <- inject_Z_mult, floor_minus_Z, floor_div60.
  rewrite Z.mod_eq by discriminate. reflexivity.
Qed.

Lemma decimal_inj (a b : Z) : Js.decimal a = Js.decimal b -> a = b.
Proof.
  unfold Js.decimal. intros E.
  apply DecimalZ.to_int_inj.
  assert (N : forall n, Z.to_int n <> Decimal.Pos Decimal.Nil
                        /\ Z.to_int n <> Decimal.Neg Decimal.Nil).
  { intros [|p|p]; simpl; split; try discriminate;
      intros [= X]; now apply (DecimalPos.Unsigned.to_uint_nonnil p). }
  apply (f_equal NilZero.int_of_string) in E.
  rewrite !NilZero.isi in E by apply N.
  now injection E.
Qed.

Lemma split_at_colon (a b x y : string) :
  countChar ":" a = O -> countChar ":" b = O ->
  a ++ ":" ++ x = b ++ ":" ++ y -> a = b /\ x = y.
Proof.
  revert b. induction a as [|c a IH]; intros [|c' b] Ha Hb E; simpl in *.
  - injection E as ->. auto.
  - injection E as <- _. simpl in Hb. discriminate.
  - injection E as -> _. simpl in Ha. discriminate.
  - injection E as -> E.
    destruct (Ascii.eqb c' ":"); [discriminate|].
    destruct (IH b Ha Hb E) as (-> & ->). auto.
Qed.

Lemma digitChar_inj (a b : Z) :
  0 <= a < 10 -> 0 <= b < 10 -> digitChar a = digitChar b -> a = b.
Proof.
  intros Ha Hb E. unfold digitChar in E.
  apply (f_equal nat_of_ascii) in E.
  rewrite !nat_ascii_embedding in E by lia. lia.
Qed.

Lemma twoDigits_inj (a b : Z) :
  0 <= a < 60 -> 0 <= b < 60 -> twoDigits a = twoDigits b -> a = b.
Proof.
  intros Ha Hb E. unfold twoDigits in E. injection E as E1 E0.
  apply digitChar_inj in E1, E0;
    try (split; [apply Z.div_pos; lia|apply Z.div_lt_upper_bound; lia]);
    try (apply Z.mod_pos_bound; lia).
  rewrite (Z.div_mod a 10), (Z.div_mod b 10) by lia. congruence.
Qed.

(** X15.  The display is faithful to whole seconds.  For durations that
    are doubles in [[0, 2^53)] the minutes and the seconds field add up to
    the whole seconds of the duration, and two durations are formatted
    alike exactly when they have the same whole seconds. *)
Theorem formatTime_whole_seconds (d1 d2 : Q) :
  isDouble d1 -> isDouble d2 ->
  (0 <= d1)%Q -> (d1 < Js.pow2 53)%Q ->
  (0 <= d2)%Q -> (d2 < Js.pow2 53)%Q ->
  formatTime d1
  = Js.decimal (Qfloor d1 / 60) ++ ":" ++ twoDigits (Qfloor d1 mod 60)
  /\ 60 * (Qfloor d1 / 60) + Qfloor d1 mod 60 = Qfloor d1
  /\ (formatTime d1 = formatTime d2 <-> Qfloor d1 = Qfloor d2).
Proof.
  intros D1 D2 L1 B1 L2 B2.
  assert (F : forall d, isDouble d -> (0 <= d)%Q -> (d < Js.pow2 53)%Q ->
            formatTime d
            = Js.decimal (Qfloor d / 60) ++ ":" ++ twoDigits (Qfloor d mod 60)).
  { intros d D L B. now rewrite formatTime_fields, seconds_field, floor_div60. }
  split; [now apply F|]. split; [symmetry; apply Z.div_mod; discriminate|].
  rewrite (F d1 D1 L1 B1), (F d2 D2 L2 B2). split.
  - intros E.
    apply split_at_colon in E; try apply colon_free_decimal.
    destruct E as (Em & Es).
    apply decimal_inj in Em.
    apply twoDigits_inj in Es; try (apply Z.mod_pos_bound; lia).
    rewrite (Z.div_mod (Qfloor d1) 60), (Z.div_mod (Qfloor d2) 60) by discriminate.
    congruence.
  - intros ->. reflexivity.
Qed.

(** 125.75 and 125 seconds both read ["2:05"]. *)
Lemma formatTime_whole_seconds_witness :
  formatTime 125.75 = formatTime 125.
Proof.
  assert (D1 : isDouble 125.75).
  { exists 503, (-2). split; [reflexivity|].
    split; [split; discriminate|reflexivity]. }
  assert (D2 : isDouble 125).
  { exists 125, 0. split; [reflexivity|].
    split; [split; discriminate|reflexivity]. }
  assert (L1 : (0 <= 125.75)%Q) by discriminate.
  assert (B1 : (125.75 < Js.pow2 53)%Q) by reflexivity.
  assert (L2 : (0 <= 125)%Q) by discriminate.
  assert (B2 : (125 < Js.pow2 53)%Q) by reflexivity.
  apply (proj2 (proj2 (formatTime_whole_seconds 125.75 125 D1 D2 L1 B1 L2 B2))).
  reflexivity.
Defined.

(** ** The sliders keep their ranges *)

Section Ranges.

Context {engine : MediaEngine}.

Lemma step_ranges (e : Event) (w : Page) :
  wired (widget w) ->
  Range.min (volumeBar (widget (step e w))) = Range.min (volumeBar (widget w))
  /\ Range.max (volumeBar (widget (step e w))) = Range.max (volumeBar (widget w))
  /\ Range.step (volumeBar (widget (step e w))) = Range.step (volumeBar (widget w))
  /\ Range.min (progressBar (widget (step e w))) = Range.min (progressBar (widget w))
  /\ Range.step (progressBar (widget (step e w)))
     = Range.step (progressBar (widget w)).
Proof.
  intros H. rewrite step_react by exact H.
  destruct w as [doc p].
  destruct e as [b| | | | | |]; [destruct b|..]; by_flags p; repeat split.
Qed.

End Ranges.

(** X17.  The sliders keep the ranges that construction gave them.  After
    construction and any sequence of events the volume slider still runs
    from 0 to 1 in steps of 0.01 and the seek slider still starts at 0 with
    step 1; the maximum of the seek slider is the only bound that an event
    moves. *)
Theorem slider_ranges_fixed
    (engine : MediaEngine) (containerId videoUrl : string) (doc : Document)
    (w : Page) (es : list Event) :
  mount containerId videoUrl doc = Some w ->
  Range.min (volumeBar (widget (run es w))) = 0%Q
  /\ Range.max (volumeBar (widget (run es w))) = Some 1%Q
  /\ Range.step (volumeBar (widget (run es w))) = 0.01%Q
  /\ Range.min (progressBar (widget (run es w))) = 0%Q
  /\ Range.step (progressBar (widget (run es w))) = 1%Q.
Proof.
  intros M.
  apply (run_invariant
           (fun w => Range.min (volumeBar (widget w)) = 0%Q
                     /\ Range.max (volumeBar (widget w)) = Some 1%Q
                     /\ Range.step (volumeBar (widget w)) = 0.01%Q
                     /\ Range.min (progressBar (widget w)) = 0%Q
                     /\ Range.step (progressBar (widget w)) = 1%Q)
           (fun _ => true)).
  - intros e w0 H _ (A & B & C & D & E).
    destruct (step_ranges e w0 H) as (A' & B' & C' & D' & E').
    rewrite A', B', C', D', E'. auto.
  - exact (mount_wired _ _ _ _ M).
  - apply forallb_always.
  - revert M. unfold mount, constructor, validateInputs, when, bind, getElementById.
    destruct (lookupId containerId (elements doc)); [|discriminate].
    destruct videoUrl; [simpl; discriminate|].
    cbn -[styleText].
    intros [= <-]. repeat split.
Qed.

Lemma slider_ranges_fixed_witness :
  Range.max (volumeBar (widget (@run clampingEngine
     [LoadedMetadata 100; VolumeInput 0.5; Click TheMuteBtn]%Q samplePage)))
  = Some 1%Q.
Proof.
  assert (M : mount "video1" "../videos/Nice-1.mp4" sampleDocument = Some samplePage)
    by (vm_compute; reflexivity).
  destruct (slider_ranges_fixed clampingEngine _ _ _ samplePage
              [LoadedMetadata 100; VolumeInput 0.5; Click TheMuteBtn]%Q M)
    as (_ & R & _).
  exact R.
Defined.

(** ** The style block *)

Lemma append_length (a b : string) :
  String.length (a ++ b) = (String.length a + String.length b)%nat.
Proof. induction a as [|c a IH]; simpl; [reflexivity|now rewrite IH]. Qed.

Lemma append_inv_tail (a b t : string) : a ++ t = b ++ t -> a = b.
Proof.
  revert b. induction a as [|c a IH]; intros [|c' b] E; simpl in E.
  - reflexivity.
  - apply (f_equal String.length) in E. simpl in E.
    rewrite append_length in E. lia.
  - apply (f_equal String.length) in E. simpl in E.
    rewrite append_length in E. lia.
  - injection E as -> E. f_equal. now apply IH.
Qed.

(** X18.  The injected style block is scoped by the mount point: its text
    starts with the selector of the identifier, and two mount points get
    the same text only when their identifiers are equal. *)
Theorem styleText_scoped (id1 id2 : string) :
  (exists rules, styleText id1 = String "010" ("        #" ++ id1 ++ rules))
  /\ (styleText id1 = styleText id2 <-> id1 = id2).
Proof.
  split; [eexists; reflexivity|].
  split; [|now intros ->].
  unfold styleText. intros E.
  repeat match type of E with
         | String _ _ = String _ _ => injection E as E
         | String _ _ ++ _ = String _ _ ++ _ => simpl in E
         end.
  now apply append_inv_tail in E.
Qed.

